(** * pydesim: the discrete-event kernel, the simulator facade and the
      model managers of [pydesim/simulator.py], embedded in Rocq.

    Conventions of the embedding.
    - Simulated time and delays are Python numbers; they are modelled by
      [Z], Python's exact integers.  Floating-point time (rounding, NaN) is
      outside the model.
    - A Python exception is a value of [exn]; an operation that can raise
      returns a [result] together with the state it leaves behind, because
      mutations done before a [raise] stay done.
    - A callable given to [schedule] is a name of type [Fn]; what it does
      when called is given by [body], a program over the two operations the
      simulator facade offers to user code, [schedule] and [cancel].  User
      code that goes around the facade (to the kernel behind
      [sim.logger.kernel], or to name-mangled fields), or that writes to
      the simulator's own objects ([sim.handlers[k] = v],
      [sim.logger.level = l]), is outside the model.
    - [heapq] is the Python standard library; it is taken through its
      contract (class [Heapq]), which a sorted list meets. *)

From stdpp Require Import gmap strings list fin_maps sorting.

Open Scope Z_scope.
Set Warnings "-clear-no-such-hyp".

(** ** Exceptions and results *)

Inductive exn : Type :=
| ValueError (msg : string)
| KeyError (key : string)
| KeyErrorId (key : nat)      (* KeyError whose key is an event id *)
| IndexError (msg : string)
| TypeError (msg : string)
| AssertionError
| UserException (tag : nat).  (* anything a user callable raises itself *)

Inductive result (A : Type) : Type :=
| Ok (a : A)
| Raise (e : exn).
Arguments Ok {A} a.
Arguments Raise {A} e.

(** [del d[key]] on a dict: raises KeyError when the key is absent. *)
Definition dict_del {A} (d : gmap nat A) (key : nat) : result (gmap nat A) :=
  match d !! key with
  | Some _ => Ok (delete key d)
  | None => Raise (KeyErrorId key)
  end.

(** How a run that is given [fuel] ends. *)
Inductive outcome (A : Type) : Type :=
| Finished (a : A)
| Raised (e : exn)
| OutOfFuel.
Arguments Finished {A} a.
Arguments Raised {A} e.
Arguments OutOfFuel {A}.

(** [d.update(other)]: the entries of [other] win. *)
Definition dict_update {A} (d other : gmap string A) : gmap string A :=
  other ∪ d.

(** ** Attribute lookup

    [obj.name] first looks [name] up the normal way: in the instance, in the
    class and in [object].  Only when that finds nothing does Python call
    the class's [__getattr__] with the name.  What the class body and
    [__init__] put there is read off the source ([own]).  What [object] and
    the class machinery provide depends on the Python version and is left
    open ([inherited]); all of it has a name of the form [__x__]. *)
Inductive attribute (A : Type) : Type :=
| Normal (name : string)   (* found the normal way: a bound method of the
                              class, the private field under its mangled
                              name, an attribute of [object] *)
| Entry (v : A).           (* what [__getattr__] returned *)
Arguments Normal {A} name.
Arguments Entry {A} v.

Definition dunder (name : string) : bool :=
  String.prefix "__" name && String.prefix "__" (String.rev name).

Definition getattr {A} (own : list string) (inherited : string → bool)
    (__getattr__ : string → result A) (name : string) : result (attribute A) :=
  if bool_decide (name ∈ own) || (dunder name && inherited name)
  then Ok (Normal name)
  else match __getattr__ name with
       | Ok v => Ok (Entry v)
       | Raise e => Raise e
       end.

Section Simulation.

(** [V]: Python values carried in [args] and [kwargs].
    [Fn]: the callables handed to [schedule], [init], [fin]: Python
    functions and bound methods (they all carry [__name__] and are truthy). *)
Context {V Fn : Type}.

(** ** class _Event

    The five fields set by [__init__] never change and are carried by
    value.  The one mutable field, [__removed], is shared between the
    queue and the id table (both hold the same object), so it lives in the
    kernel's table of flags [removed_flags], keyed by the event's id: the
    counter never repeats, so an id names one event object. *)
Record _Event : Type := mk_Event {
  ev_id : nat;
  ev_stime : Z;
  ev_fn : option Fn;
  ev_args : list V;
  ev_kwargs : list (string * V);
}.

(** [_Event.__eq__] *)
Definition event_eq (self other : _Event) : bool :=
  (ev_stime self =? ev_stime other) && (ev_id self =? ev_id other)%nat.

(** [_Event.__lt__] *)
Definition event_lt (self other : _Event) : bool :=
  (ev_stime self <? ev_stime other)
  || ((ev_stime self =? ev_stime other) && (ev_id self <? ev_id other)%nat).

(** ** heapq, by its contract

    [heappush] and [heappop] keep the heap invariant [is_heap] of the list
    they work on, keep its elements, and [heappop] returns an element that
    no remaining element is smaller than.  [heappop] of an empty list is
    Python's IndexError, here [None]. *)
Class Heapq : Type := {
  is_heap : list _Event → Prop;
  heappush : list _Event → _Event → list _Event;
  heappop : list _Event → option (_Event * list _Event);
  is_heap_nil : is_heap [];
  heappush_is_heap q e : is_heap q → is_heap (heappush q e);
  heappush_perm q e : heappush q e ≡ₚ e :: q;
  heappop_nil : heappop [] = None;
  heappop_is_Some q : q ≠ [] → is_Some (heappop q);
  heappop_perm q e q' : heappop q = Some (e, q') → q ≡ₚ e :: q';
  heappop_is_heap q e q' : is_heap q → heappop q = Some (e, q') → is_heap q';
  heappop_min q e q' :
    is_heap q → heappop q = Some (e, q') → ∀ x, x ∈ q' → event_lt x e = false;
}.

Context `{!Heapq}.

(** ** class Kernel

    [__stop_predicates] holds closures [lambda kern: stime_limit < kern.stime];
    the only place that appends one is [setup], so a closure is represented
    by the [stime_limit] it captured. *)
Record Kernel : Type := mkKernel {
  __queue : list _Event;
  __stime : Z;
  __evids : gmap nat _Event;
  __next_evid : nat;               (* the next value of itertools.count() *)
  __num_events : nat;
  __queue_size : Z;
  __stop_predicates : list Z;
  removed_flags : gset nat;        (* events whose __removed is True *)
}.

(** [Kernel.__init__] *)
Definition Kernel__init__ : Kernel :=
  {| __queue := []; __stime := 0; __evids := ∅; __next_evid := 0;
     __num_events := 0; __queue_size := 0; __stop_predicates := [];
     removed_flags := ∅ |}.

Definition stime (self : Kernel) : Z := __stime self.
Definition empty (self : Kernel) : bool := __queue_size self =? 0.
Definition num_events (self : Kernel) : nat := __num_events self.

(** [event.removed], read through whichever reference holds the event. *)
Definition removed (self : Kernel) (event : _Event) : bool :=
  bool_decide (ev_id event ∈ removed_flags self).

Definition set_queue (q : list _Event) (k : Kernel) : Kernel :=
  {| __queue := q; __stime := __stime k; __evids := __evids k;
     __next_evid := __next_evid k; __num_events := __num_events k;
     __queue_size := __queue_size k;
     __stop_predicates := __stop_predicates k;
     removed_flags := removed_flags k |}.

Definition set_evids (m : gmap nat _Event) (k : Kernel) : Kernel :=
  {| __queue := __queue k; __stime := __stime k; __evids := m;
     __next_evid := __next_evid k; __num_events := __num_events k;
     __queue_size := __queue_size k;
     __stop_predicates := __stop_predicates k;
     removed_flags := removed_flags k |}.

(** [Kernel.add_event] *)
Definition add_event (self : Kernel) (delay : Z) (handler : option Fn)
    (args : list V) (kwargs : option (list (string * V)))
  : result nat * Kernel :=
  if delay <? 0 then (Raise (ValueError "negative delay disallowed"), self)
  else
    let kwargs := match kwargs with None => [] | Some kw => kw end in
    let event :=
      mk_Event (__next_evid self) (stime self + delay) handler args kwargs in
    (Ok (ev_id event),
     {| __queue := heappush (__queue self) event;
        __stime := __stime self;
        __evids := <[ev_id event := event]> (__evids self);
        __next_evid := S (__next_evid self);
        __num_events := __num_events self;
        __queue_size := __queue_size self + 1;
        __stop_predicates := __stop_predicates self;
        (* _Event.__init__ sets the new object's __removed to False *)
        removed_flags := removed_flags self ∖ {[ev_id event]} |}).

(** [Kernel.remove_event].  [if event:] tests for None: an [_Event] has
    neither [__bool__] nor [__len__], so an event object is truthy. *)
Definition remove_event (self : Kernel) (evid : nat)
  : result (option _Event) * Kernel :=
  match __evids self !! evid with
  | Some event =>
      match dict_del (__evids self) evid with
      | Raise e => (Raise e, self)
      | Ok evids' =>
          let self1 := set_evids evids' self in
          if negb (removed self1 event) then
            (Ok (Some event),
             {| __queue := __queue self1;
                __stime := __stime self1;
                __evids := __evids self1;
                __next_evid := __next_evid self1;
                __num_events := __num_events self1;
                __queue_size := __queue_size self1 - 1;
                __stop_predicates := __stop_predicates self1;
                removed_flags := {[ev_id event]} ∪ removed_flags self1 |})
          else (Ok None, self1)
      end
  | None => (Ok None, self)
  end.

(** [Kernel._next_event].  The [while self.__queue] loop pops one element
    per turn, so it makes at most [length queue] turns; [turns] bounds them. *)
Fixpoint _next_event_loop (turns : nat) (self : Kernel)
  : result _Event * Kernel :=
  match __queue self with
  | [] => (Raise (KeyError "pop from empty queue"), self)
  | _ :: _ =>
      match heappop (__queue self) with
      | None => (Raise (IndexError "index out of range"), self)
      | Some (event, q') =>
          let self1 := set_queue q' self in
          if negb (removed self1 event) then
            if ev_stime event <? __stime self1
            then (Raise AssertionError, self1)
            else
              let self2 :=
                {| __queue := __queue self1;
                   __stime := ev_stime event;
                   __evids := __evids self1;
                   __next_evid := __next_evid self1;
                   __num_events := __num_events self1;
                   __queue_size := __queue_size self1;
                   __stop_predicates := __stop_predicates self1;
                   removed_flags := removed_flags self1 |} in
              match dict_del (__evids self2) (ev_id event) with
              | Raise e => (Raise e, self2)
              | Ok evids' =>
                  (Ok event,
                   {| __queue := __queue self2;
                      __stime := __stime self2;
                      __evids := evids';
                      __next_evid := __next_evid self2;
                      __num_events := __num_events self2;
                      __queue_size := __queue_size self2 - 1;
                      __stop_predicates := __stop_predicates self2;
                      removed_flags := removed_flags self2 |})
              end
          else
            match turns with
            | O => (Raise (KeyError "pop from empty queue"), self1)
            | S turns' => _next_event_loop turns' self1
            end
      end
  end.

Definition _next_event (self : Kernel) : result _Event * Kernel :=
  _next_event_loop (length (__queue self)) self.

(** [Kernel._test_stop]: [any(pred(self) for pred in ...)]. *)
Definition _test_stop (self : Kernel) : bool :=
  existsb (fun stime_limit => stime_limit <? stime self)
          (__stop_predicates self).

(** [Kernel.setup] *)
Definition setup (self : Kernel) (stime_limit : option Z) : Kernel :=
  match stime_limit with
  | Some limit =>
      if 0 <? limit then
        {| __queue := __queue self; __stime := __stime self;
           __evids := __evids self; __next_evid := __next_evid self;
           __num_events := __num_events self;
           __queue_size := __queue_size self;
           __stop_predicates := __stop_predicates self ++ [limit];
           removed_flags := removed_flags self |}
      else self
  | None => self
  end.


(** ** class HandlersDict *)
Record HandlersDict : Type := mkHandlersDict { __handlers : gmap string Fn }.

(** [if handlers:] is false for None and for an empty dict. *)
Definition HandlersDict__init__ (handlers : option (gmap string Fn))
  : HandlersDict :=
  match handlers with
  | Some h => if bool_decide (h = ∅) then mkHandlersDict ∅
              else mkHandlersDict (dict_update ∅ h)
  | None => mkHandlersDict ∅
  end.

Definition dict_getitem {A} (d : gmap string A) (item : string) : result A :=
  match d !! item with
  | Some v => Ok v
  | None => Raise (KeyError item)
  end.

Definition HandlersDict__getitem__ (self : HandlersDict) (item : string)
  : result Fn := dict_getitem (__handlers self) item.

Definition HandlersDict__setitem__ (self : HandlersDict) (key : string)
    (value : Fn) : HandlersDict :=
  mkHandlersDict (<[key := value]> (__handlers self)).

(** [HandlersDict.__getattr__]: the method, which Python calls only for a
    name that normal lookup does not find. *)
Definition HandlersDict__getattr__ (self : HandlersDict) (item : string)
  : result Fn := dict_getitem (__handlers self) item.

(** [HandlersDict.get(item)]: one argument, no default. *)
Definition HandlersDict_get (self : HandlersDict) (item : string)
  : result Fn := dict_getitem (__handlers self) item.

(** The names normal lookup finds on a [HandlersDict]: the methods of the
    class body and the field [__handlers], which is stored mangled. *)
Definition HandlersDict_names : list string :=
  ["__init__"; "__getitem__"; "__setitem__"; "__getattr__"; "get";
   "_HandlersDict__handlers"].

(** [handlers.item], attribute style. *)
Definition HandlersDict_getattr (inherited : string → bool)
    (self : HandlersDict) (item : string) : result (attribute Fn) :=
  getattr HandlersDict_names inherited (HandlersDict__getattr__ self) item.

(** ** class _ParamsDict *)
Record _ParamsDict : Type := mk_ParamsDict { __kwargs : gmap string V }.

Definition _ParamsDict__init__ (kwargs : option (gmap string V))
  : _ParamsDict :=
  match kwargs with
  | Some kw => if bool_decide (kw = ∅) then mk_ParamsDict (dict_update ∅ ∅)
               else mk_ParamsDict (dict_update ∅ kw)
  | None => mk_ParamsDict (dict_update ∅ ∅)
  end.

Definition _ParamsDict__getitem__ (self : _ParamsDict) (item : string)
  : result V := dict_getitem (__kwargs self) item.

(** [_ParamsDict.__getattr__]: the method, which Python calls only for a
    name that normal lookup does not find. *)
Definition _ParamsDict__getattr__ (self : _ParamsDict) (item : string)
  : result V := dict_getitem (__kwargs self) item.

Definition _ParamsDict_as_dict (self : _ParamsDict) : gmap string V :=
  dict_update ∅ (__kwargs self).

(** The names normal lookup finds on a [_ParamsDict].  The class defines no
    [get], so [params.get] goes to [__getattr__] with the key "get". *)
Definition _ParamsDict_names : list string :=
  ["__init__"; "__getitem__"; "__getattr__"; "as_dict";
   "_ParamsDict__kwargs"].

(** [params.item], attribute style. *)
Definition _ParamsDict_getattr (inherited : string → bool)
    (self : _ParamsDict) (item : string) : result (attribute V) :=
  getattr _ParamsDict_names inherited (_ParamsDict__getattr__ self) item.

(** ** class Logger (its level only: [write] prints and touches nothing) *)
Inductive Level : Type := TRACE | DEBUG | INFO | WARNING | ERROR.

Definition Level_value (l : Level) : Z :=
  match l with
  | TRACE => 0 | DEBUG => 1 | INFO => 2 | WARNING => 3 | ERROR => 4
  end.

(** ** What user code does

    [W] is the state of the user's objects (the Python heap outside the
    kernel); [Data] is what [sim.data] holds, a reference into it.
    A [prog R] is a run of user code that ends by returning an [R] or by
    raising, and in between calls [sim.schedule] and [sim.cancel]; each call
    hands its outcome to the rest of the code, which may be to re-raise. *)
Context {W Data : Type}.

Inductive prog (R : Type) : Type :=
| Return (r : R) (w : W)
| Throw (e : exn) (w : W)
| Schedule (delay : Z) (handler : option Fn) (args : list V)
    (kwargs : option (list (string * V))) (rest : result nat → prog R)
| Cancel (evid : nat) (rest : result unit → prog R).
Arguments Return {R} r w.
Arguments Throw {R} e w.
Arguments Schedule {R} delay handler args kwargs rest.
Arguments Cancel {R} evid rest.

(** ** class Simulator *)
Record Simulator : Type := mkSimulator {
  sim__handlers : HandlersDict;
  sim__kernel : Kernel;
  sim__params : _ParamsDict;
  sim__logger_level : Level;
  sim__data : option Data;          (* None while __init__ builds the data *)
}.

Definition set_kernel (k : Kernel) (sim : Simulator) : Simulator :=
  {| sim__handlers := sim__handlers sim; sim__kernel := k;
     sim__params := sim__params sim;
     sim__logger_level := sim__logger_level sim;
     sim__data := sim__data sim |}.

Definition Simulator_stime (self : Simulator) : Z := stime (sim__kernel self).
Definition Simulator_num_events (self : Simulator) : nat :=
  num_events (sim__kernel self).

(** [Simulator.schedule] *)
Definition Simulator_schedule (self : Simulator) (delay : Z)
    (handler : option Fn) (args : list V)
    (kwargs : option (list (string * V))) : result nat * Simulator :=
  let '(r, k) := add_event (sim__kernel self) delay handler args kwargs in
  (r, set_kernel k self).

(** [Simulator.cancel]: the event returned by [remove_event] is dropped. *)
Definition Simulator_cancel (self : Simulator) (evid : nat)
  : result unit * Simulator :=
  let '(r, k) := remove_event (sim__kernel self) evid in
  (match r with Ok _ => Ok tt | Raise e => Raise e end, set_kernel k self).

(** ** Observations

    The run is instrumented with a log of what happened, in order; the log
    is not part of the Python state. *)
Inductive obs : Type :=
| OInitialize                      (* sim.data.initialize(sim) entered *)
| OInit                            (* init(sim) entered *)
| OFin                             (* fin(sim) entered *)
| OPop (event : _Event)            (* _next_event returned event *)
| OCall (event : _Event)           (* event.fn(...) entered *)
| OSchedule (event : _Event)       (* schedule created event, returned its id *)
| OCancel (evid : nat).            (* cancel(evid) called *)

Record State : Type := mkState {
  st_sim : Simulator;
  st_world : W;
  st_log : list obs;
}.

Definition kernel_of (s : State) : Kernel := sim__kernel (st_sim s).

(** The event [add_event] creates when it accepts the call. *)
Definition new_event (k : Kernel) (delay : Z) (handler : option Fn)
    (args : list V) (kwargs : option (list (string * V))) : _Event :=
  mk_Event (__next_evid k) (stime k + delay) handler args
           (match kwargs with None => [] | Some kw => kw end).

(** Running user code against the simulator. *)
Fixpoint exec {R} (p : prog R) (sim : Simulator) (log : list obs)
  : result R * State :=
  match p with
  | Return r w => (Ok r, mkState sim w log)
  | Throw e w => (Raise e, mkState sim w log)
  | Schedule delay handler args kwargs rest =>
      let '(r, sim') := Simulator_schedule sim delay handler args kwargs in
      let log' :=
        match r with
        | Ok _ => log ++ [OSchedule (new_event (sim__kernel sim) delay
                                               handler args kwargs)]
        | Raise _ => log
        end in
      exec (rest r) sim' log'
  | Cancel evid rest =>
      let '(r, sim') := Simulator_cancel sim evid in
      exec (rest r) sim' (log ++ [OCancel evid])
  end.

(** [body fn sim args kwargs w]: what calling [fn] does in the world [w].
    [run] calls a bound method with the event's args and kwargs, and the
    method reaches the simulator through its target; it calls any other
    callable with [sim] put before them.  Either way the code can read the
    simulator and use [schedule] and [cancel], so the two branches of [run]
    are one here; they differ besides in the trace record they print.
    [has_initialize d] is [d.initialize] when [hasattr] finds it. *)
Context (body : Fn → Simulator → list V → list (string * V) → W → prog unit).
Context (has_initialize : Data → option Fn).


(** [self.__num_events += 1] *)
Definition bump (k : Kernel) : Kernel :=
  {| __queue := __queue k; __stime := __stime k; __evids := __evids k;
     __next_evid := __next_evid k; __num_events := S (__num_events k);
     __queue_size := __queue_size k;
     __stop_predicates := __stop_predicates k;
     removed_flags := removed_flags k |}.

Definition bump_num_events (sim : Simulator) : Simulator :=
  set_kernel (bump (sim__kernel sim)) sim.

(** The [while not self.empty] loop of [Kernel.run]; [fuel] bounds the
    number of turns. *)
Fixpoint run_loop (fuel : nat) (s : State) : outcome unit * State :=
  if empty (kernel_of s) then (Finished tt, s)
  else
    match fuel with
    | O => (OutOfFuel, s)
    | S fuel' =>
        match _next_event (kernel_of s) with
        | (Raise e, k1) =>
            (Raised e, mkState (set_kernel k1 (st_sim s)) (st_world s) (st_log s))
        | (Ok event, k1) =>
            let sim1 := set_kernel k1 (st_sim s) in
            let log1 := st_log s ++ [OPop event] in
            if negb (_test_stop k1) then
              match ev_fn event with
              | Some fn =>
                  match exec (body fn sim1 (ev_args event) (ev_kwargs event)
                                   (st_world s))
                             sim1 (log1 ++ [OCall event]) with
                  | (Ok _, s2) =>
                      run_loop fuel'
                        (mkState (bump_num_events (st_sim s2))
                                 (st_world s2) (st_log s2))
                  | (Raise e, s2) => (Raised e, s2)
                  end
              | None => run_loop fuel' (mkState sim1 (st_world s) log1)
              end
            else (Finished tt, mkState sim1 (st_world s) log1)
        end
    end.

(** Calling an optional hook with [sim] as its only argument. *)
Definition call_hook (hook : option Fn) (mark : obs) (s : State)
  : result unit * State :=
  match hook with
  | Some fn =>
      exec (body fn (st_sim s) [] [] (st_world s)) (st_sim s)
           (st_log s ++ [mark])
  | None => (Ok tt, s)
  end.

(** [sim.data.initialize] when [hasattr(sim.data, 'initialize')]. *)
Definition data_initialize (sim : Simulator) : option Fn :=
  match sim__data sim with
  | Some d => has_initialize d
  | None => None
  end.

(** [Kernel.run(sim, init, fin)], for the simulator built on this kernel
    (the only way [simulate] calls it). *)
Definition run (fuel : nat) (init fin : option Fn) (s : State)
  : outcome unit * State :=
  match call_hook (data_initialize (st_sim s)) OInitialize s with
  | (Raise e, s1) => (Raised e, s1)
  | (Ok _, s1) =>
      match call_hook init OInit s1 with
      | (Raise e, s2) => (Raised e, s2)
      | (Ok _, s2) =>
          match run_loop fuel s2 with
          | (Finished _, s3) =>
              match call_hook fin OFin s3 with
              | (Raise e, s4) => (Raised e, s4)
              | (Ok _, s4) => (Finished tt, s4)
              end
          | other => other
          end
      end
  end.


(** ** Simulator.__init__

    [protodata] is either a class or an object.  The three kinds of class
    the constructor tells apart are built differently: a subclass of [Model]
    gets the simulator under construction, and may schedule on it; the
    others get the parameters as keyword arguments and no simulator. *)
Inductive protodata : Type :=
| ModelSubclass (ctor : Simulator → W → prog Data)
| ClassWithCreate (create : gmap string V → W → result Data * W)
| OtherClass (ctor : gmap string V → W → result Data * W)
| NotAClass (d : Data).

Definition set_data (d : Data) (sim : Simulator) : Simulator :=
  {| sim__handlers := sim__handlers sim; sim__kernel := sim__kernel sim;
     sim__params := sim__params sim;
     sim__logger_level := sim__logger_level sim;
     sim__data := Some d |}.

Definition Simulator__init__ (kernel : Kernel) (proto : protodata)
    (handlers : option (gmap string Fn)) (params : option (gmap string V))
    (loglevel : option Level) (w : W) : result unit * State :=
  let params := match params with None => ∅ | Some p => p end in
  let self :=
    {| sim__handlers := HandlersDict__init__ handlers;
       sim__kernel := kernel;
       sim__params := _ParamsDict__init__ (Some params);
       sim__logger_level := match loglevel with Some l => l | None => INFO end;
       sim__data := None |} in
  match proto with
  | ModelSubclass ctor =>
      match exec (ctor self w) self [] with
      | (Ok d, s) => (Ok tt, mkState (set_data d (st_sim s)) (st_world s) (st_log s))
      | (Raise e, s) => (Raise e, s)
      end
  | ClassWithCreate create =>
      match create params w with
      | (Ok d, w') => (Ok tt, mkState (set_data d self) w' [])
      | (Raise e, w') => (Raise e, mkState self w' [])
      end
  | OtherClass ctor =>
      match ctor params w with
      | (Ok d, w') => (Ok tt, mkState (set_data d self) w' [])
      | (Raise e, w') => (Raise e, mkState self w' [])
      end
  | NotAClass d => (Ok tt, mkState (set_data d self) w [])
  end.

(** ** simulate *)

(** The [params] argument: a Python list of parameter dicts, or anything
    else the constructor of [Simulator] takes (a dict or None). *)
Inductive params_arg : Type :=
| ParamsList (l : list (gmap string V))
| ParamsOne (p : option (gmap string V)).

Inductive simulate_result : Type :=
| OneSim (sim : Simulator)
| SimList (results : list Simulator).

(** The [for a_params in params] loop, [results] being the list built so
    far. *)
Fixpoint simulate_for (fuel : nat) (data : protodata) (init fin : option Fn)
    (handlers : option (gmap string Fn)) (params : list (gmap string V))
    (stime_limit : Z) (loglevel : option Level)
    (results : list Simulator) (w : W) : outcome (list Simulator) * W :=
  match params with
  | [] => (Finished results, w)
  | a_params :: params' =>
      let kernel := Kernel__init__ in
      match Simulator__init__ kernel data handlers (Some a_params) loglevel w
      with
      | (Raise e, s) => (Raised e, st_world s)
      | (Ok _, s) =>
          let sim :=
            set_kernel (setup (kernel_of s) (Some stime_limit)) (st_sim s) in
          match run fuel init fin (mkState sim (st_world s) (st_log s)) with
          | (Finished _, s') =>
              simulate_for fuel data init fin handlers params' stime_limit
                           loglevel (results ++ [st_sim s']) (st_world s')
          | (Raised e, s') => (Raised e, st_world s')
          | (OutOfFuel, s') => (OutOfFuel, st_world s')
          end
      end
  end.

Definition simulate (fuel : nat) (data : protodata) (init fin : option Fn)
    (handlers : option (gmap string Fn)) (params : params_arg)
    (stime_limit : option Z) (loglevel : option Level) (w : W)
  : outcome simulate_result * W :=
  let stime_limit := match stime_limit with Some l => l | None => 0 end in
  match params with
  | ParamsList l =>
      match simulate_for fuel data init fin handlers l stime_limit loglevel
                         [] w with
      | (Finished results, w') => (Finished (SimList results), w')
      | (Raised e, w') => (Raised e, w')
      | (OutOfFuel, w') => (OutOfFuel, w')
      end
  | ParamsOne p =>
      let kernel := Kernel__init__ in
      match Simulator__init__ kernel data handlers p loglevel w with
      | (Raise e, s) => (Raised e, st_world s)
      | (Ok _, s) =>
          let sim :=
            set_kernel (setup (kernel_of s) (Some stime_limit)) (st_sim s) in
          match run fuel init fin (mkState sim (st_world s) (st_log s)) with
          | (Finished _, s') => (Finished (OneSim (st_sim s')), st_world s')
          | (Raised e, s') => (Raised e, st_world s')
          | (OutOfFuel, s') => (OutOfFuel, st_world s')
          end
      end
  end.

End Simulation.

Arguments Return {V Fn W R} r w.
Arguments Throw {V Fn W R} e w.
Arguments Schedule {V Fn W R} delay handler args kwargs rest.
Arguments Cancel {V Fn W R} evid rest.

(** ** class _ModulesManager and class Model

    A Python dict keeps its keys in insertion order and [modules()] lists
    values in that order, so a container is an association list without
    repeated keys.  A value put in a container is a model, a sequence of
    such values, or something else. *)
Module Models.

#[warnings="-register-all"]
Inductive mval : Type :=
| AModel (m : nat)               (* a Model object, by reference *)
| ASeq (vs : list mval)          (* a tuple or list *)
| AnAtom (tag : nat).            (* neither a Model nor iterable *)

Definition container : Type := list (string * mval).

(** [name in d] *)
Fixpoint dict_contains (d : container) (name : string) : bool :=
  match d with
  | [] => false
  | (k, _) :: d' => if String.eqb k name then true else dict_contains d' name
  end.

(** [d[name]] *)
Fixpoint dict_lookup (d : container) (name : string) : result mval :=
  match d with
  | [] => Raise (KeyError name)
  | (k, v) :: d' => if String.eqb k name then Ok v else dict_lookup d' name
  end.

(** [del d[name]] *)
Fixpoint dict_delitem (d : container) (name : string) : result container :=
  match d with
  | [] => Raise (KeyError name)
  | (k, v) :: d' =>
      if String.eqb k name then Ok d'
      else match dict_delitem d' name with
           | Ok d'' => Ok ((k, v) :: d'')
           | Raise e => Raise e
           end
  end.

(** [d[name] = v]: a present key keeps its place, a new key goes last. *)
Fixpoint dict_setitem (d : container) (name : string) (v : mval) : container :=
  match d with
  | [] => [(name, v)]
  | (k, v0) :: d' =>
      if String.eqb k name then (k, v) :: d'
      else (k, v0) :: dict_setitem d' name v
  end.

(** [d.update(other)] *)
Definition dict_update_items (d other : container) : container :=
  fold_left (fun acc kv => dict_setitem acc (fst kv) (snd kv)) other d.

(** [_ModulesManager.add] *)
Definition add (self : container) (name : string) (module : mval)
  : result container :=
  if dict_contains self name then
    match dict_delitem self name with
    | Ok c => Ok (dict_setitem c name module)
    | Raise e => Raise e
    end
  else Ok (dict_setitem self name module).

(** [_ModulesManager.remove]: the KeyError of [del] is caught. *)
Definition remove (self : container) (name : string) : container :=
  match dict_delitem self name with
  | Ok c => c
  | Raise _ => self
  end.

(** [_ModulesManager.update] *)
Definition update (self : container) (kwargs : container) : container :=
  dict_update_items
    (fold_left (fun acc kv => remove acc (fst kv)) kwargs self) kwargs.

(** [_ModulesManager.get(name)]: one argument, no default. *)
Definition get (self : container) (name : string) : result mval :=
  dict_lookup self name.

(** [_ModulesManager.all] *)
Definition all (self : container) : container := self.

(** The inner [add(val)] of [modules()]. *)
Fixpoint flatten (val : mval) : result (list nat) :=
  match val with
  | AModel m => Ok [m]
  | ASeq vs =>
      (fix each (vs : list mval) : result (list nat) :=
         match vs with
         | [] => Ok []
         | v :: vs' =>
             match flatten v with
             | Raise e => Raise e
             | Ok ms =>
                 match each vs' with
                 | Raise e => Raise e
                 | Ok ms' => Ok (ms ++ ms')
                 end
             end
         end) vs
  | AnAtom _ => Raise (TypeError "object is not iterable")
  end.

(** [_ModulesManager.modules] *)
Definition modules (self : container) : result (list nat) :=
  flatten (ASeq (map snd self)).

(** [class Model]: the four private fields; the two managers are views of
    [__children] and [__modules] and are named by [which]. *)
Record Model : Type := mkModel {
  __sim : nat;                     (* the simulator, by reference *)
  __parent : option nat;           (* a Model, by reference, or None *)
  __children : container;
  __modules : container;
}.

(** The Model objects, by reference. *)
Abbreviation store := (gmap nat Model).

(** [Model.__init__(sim, parent)]: the new object gets reference [r]. *)
Definition Model__init__ (st : store) (r : nat) (sim : nat)
    (parent : option nat) : store :=
  <[r := mkModel sim parent [] []]> st.

Definition parent (st : store) (m : nat) : option nat :=
  match st !! m with
  | Some o => __parent o
  | None => None
  end.

Inductive which : Type := children | connections.

Definition container_of (w : which) (o : Model) : container :=
  match w with
  | children => __children o
  | connections => __modules o
  end.

Definition with_container (w : which) (c : container) (o : Model) : Model :=
  match w with
  | children => mkModel (__sim o) (__parent o) c (__modules o)
  | connections => mkModel (__sim o) (__parent o) (__children o) c
  end.

(** [m.children.add(name, module)] and [m.connections.add(name, module)]:
    the manager works on the dict of the model it was made for. *)
Definition manager_add (st : store) (m : nat) (w : which) (name : string)
    (module : mval) : result store :=
  match st !! m with
  | None => Raise (TypeError "no such object")
  | Some o =>
      match add (container_of w o) name module with
      | Ok c => Ok (<[m := with_container w c o]> st)
      | Raise e => Raise e
      end
  end.

Definition manager_remove (st : store) (m : nat) (w : which) (name : string)
  : result store :=
  match st !! m with
  | None => Raise (TypeError "no such object")
  | Some o => Ok (<[m := with_container w (remove (container_of w o) name) o]> st)
  end.

Definition manager_update (st : store) (m : nat) (w : which)
    (kwargs : container) : result store :=
  match st !! m with
  | None => Raise (TypeError "no such object")
  | Some o => Ok (<[m := with_container w (update (container_of w o) kwargs) o]> st)
  end.

Definition manager_get (st : store) (m : nat) (w : which) (name : string)
  : result mval :=
  match st !! m with
  | None => Raise (TypeError "no such object")
  | Some o => get (container_of w o) name
  end.

End Models.

(** ** A heapq: the list kept sorted

    A sorted list is a heap in heapq's sense (every element is no larger
    than its two children), pushing inserts in order and popping takes the
    head. *)
Section SortedHeapq.
Context {V Fn : Type}.

Fixpoint insort (q : list (@_Event V Fn)) (e : @_Event V Fn) : list _Event :=
  match q with
  | [] => [e]
  | x :: q' => if event_lt e x then e :: x :: q' else x :: insort q' e
  end.

Definition pop_head (q : list (@_Event V Fn)) : option (_Event * list _Event) :=
  match q with
  | [] => None
  | x :: q' => Some (x, q')
  end.

Definition not_after (a b : @_Event V Fn) : Prop := event_lt b a = false.

Lemma event_lt_trans (a b c : @_Event V Fn) :
  event_lt a b = true → event_lt b c = true → event_lt a c = true.
Proof.
  unfold event_lt. intros Hab Hbc.
  apply orb_true_iff in Hab. apply orb_true_iff in Hbc. apply orb_true_iff.
  destruct Hab as [Hab|Hab], Hbc as [Hbc|Hbc];
    repeat match goal with
           | X : _ && _ = true |- _ => apply andb_true_iff in X; destruct X
           | X : (_ <? _) = true |- _ => apply Z.ltb_lt in X
           | X : (_ =? _) = true |- _ => apply Z.eqb_eq in X
           | X : (_ <? _)%nat = true |- _ => apply Nat.ltb_lt in X
           end.
  - left. apply Z.ltb_lt. lia.
  - left. apply Z.ltb_lt. lia.
  - left. apply Z.ltb_lt. lia.
  - right. apply andb_true_iff. split.
    + apply Z.eqb_eq. lia.
    + apply Nat.ltb_lt. lia.
Qed.

Lemma event_lt_irrefl (a : @_Event V Fn) : event_lt a a = false.
Proof.
  unfold event_lt. rewrite Z.ltb_irrefl, Nat.ltb_irrefl.
  by rewrite andb_false_r.
Qed.

Lemma event_lt_asym (a b : @_Event V Fn) :
  event_lt a b = true → event_lt b a = false.
Proof.
  intros Hab. destruct (event_lt b a) eqn:Hba; [|done].
  pose proof (event_lt_trans _ _ _ Hab Hba) as Haa.
  by rewrite event_lt_irrefl in Haa.
Qed.

(** Events with different ids are comparable one way or the other. *)
Lemma event_lt_total (a b : @_Event V Fn) :
  ev_id a ≠ ev_id b → event_lt b a = false → event_lt a b = true.
Proof.
  unfold event_lt. intros Hne Hba.
  apply orb_false_iff in Hba as [Hlt Hrest].
  apply Z.ltb_ge in Hlt. apply andb_false_iff in Hrest.
  apply orb_true_iff.
  destruct (Z.eq_dec (ev_stime a) (ev_stime b)) as [Heq|Hneq].
  - right. apply andb_true_iff. split; [by apply Z.eqb_eq|].
    apply Nat.ltb_lt. destruct Hrest as [Hr|Hr].
    + apply Z.eqb_neq in Hr. congruence.
    + apply Nat.ltb_ge in Hr. lia.
  - left. apply Z.ltb_lt. lia.
Qed.

Lemma insort_perm q e : insort q e ≡ₚ e :: q.
Proof.
  induction q as [|x q IH]; simpl; [done|].
  destruct (event_lt e x); [done|].
  rewrite IH. apply Permutation_swap.
Qed.

Lemma not_after_trans_lt (e x y : @_Event V Fn) :
  event_lt e x = true → not_after x y → not_after e y.
Proof.
  unfold not_after. intros Hex Hyx.
  destruct (event_lt y e) eqn:Hye; [|done].
  by rewrite (event_lt_trans _ _ _ Hye Hex) in Hyx.
Qed.

Lemma insort_sorted q e :
  StronglySorted not_after q → StronglySorted not_after (insort q e).
Proof.
  induction 1 as [|x q Hq IH Hx]; simpl.
  - repeat constructor.
  - destruct (event_lt e x) eqn:Hex.
    + constructor; [by constructor|].
      constructor; [by apply event_lt_asym|].
      eapply Forall_impl; [exact Hx|]. intros y Hy.
      by eapply not_after_trans_lt.
    + constructor; [done|].
      rewrite insort_perm. by constructor.
Qed.

#[export] Program Instance sorted_heapq : @Heapq V Fn := {|
  is_heap := StronglySorted not_after;
  heappush := insort;
  heappop := pop_head;
|}.
Next Obligation. constructor. Qed.
Next Obligation. intros q e. apply insort_sorted. Qed.
Next Obligation. intros q e. apply insort_perm. Qed.
Next Obligation. done. Qed.
Next Obligation. intros [|x q] Hq; [done|]. by eexists. Qed.
Next Obligation. intros [|x q] e q' Hp; simplify_eq/=. done. Qed.
Next Obligation.
  intros [|x q] e q' Hs Hp; simplify_eq/=. by inversion Hs.
Qed.
Next Obligation.
  intros [|x q] e q' Hs Hp y Hy; simplify_eq/=.
  inversion Hs as [|? ? ? Hall]; subst.
  rewrite Forall_forall in Hall. by apply Hall.
Qed.

End SortedHeapq.


(** ** A small simulation to run the definitions on

    Values are numbers, the user's world is one counter (the attribute of
    the one model object there is), and the callables are these. *)
Module Scenario.

Inductive callable : Type :=
| h_a              (* counts one *)
| h_b              (* counts one *)
| h_chain          (* schedules h_b three units later *)
| h_two_cancel     (* schedules h_a and h_b at 5, cancels the first *)
| h_tick           (* counts one, then schedules a handler-less event
                      as many units later as the counter shows *)
| h_late           (* schedules h_a at 15 *)
| h_on_time        (* schedules h_a at 10 *)
| h_pair.          (* schedules h_b at 7, then h_a and h_b at 5 *)

Definition sim_t : Type := Simulator (V:=nat) (Fn:=callable) (Data:=nat).
Definition state_t : Type :=
  State (V:=nat) (Fn:=callable) (W:=nat) (Data:=nat).

Definition body (fn : callable) (sim : sim_t) (args : list nat)
    (kwargs : list (string * nat)) (w : nat)
  : prog (V:=nat) (Fn:=callable) (W:=nat) unit :=
  match fn with
  | h_a => Return tt (S w)
  | h_b => Return tt (S w)
  | h_chain => Schedule 3 (Some h_b) [] None (λ _, Return tt w)
  | h_two_cancel =>
      Schedule 5 (Some h_a) [] None (λ r0,
        Schedule 5 (Some h_b) [] None (λ _,
          match r0 with
          | Ok id0 => Cancel id0 (λ _, Return tt w)
          | Raise ex => Throw ex w
          end))
  | h_tick =>
      Schedule (Z.of_nat (S w)) None [] None (λ _, Return tt (S w))
  | h_late => Schedule 15 (Some h_a) [] None (λ _, Return tt w)
  | h_on_time => Schedule 10 (Some h_a) [] None (λ _, Return tt w)
  | h_pair =>
      Schedule 7 (Some h_b) [] None (λ _,
        Schedule 5 (Some h_a) [] None (λ _,
          Schedule 5 (Some h_b) [] None (λ _, Return tt w)))
  end.

(** The event [schedule] makes of a callable, an id and a fire-time. *)
Definition event (evid : nat) (at_time : Z) (fn : option callable)
  : _Event (V:=nat) (Fn:=callable) :=
  mk_Event evid at_time fn [] [].

(** The model objects have no [initialize]. *)
Definition has_initialize (d : nat) : option callable := None.

(** What [object] and the class machinery give an instance of a plain
    class, as CPython 3.8 lists it. *)
Definition object_names : list string :=
  ["__class__"; "__delattr__"; "__dict__"; "__dir__"; "__doc__"; "__eq__";
   "__format__"; "__ge__"; "__getattribute__"; "__gt__"; "__hash__";
   "__init__"; "__init_subclass__"; "__le__"; "__lt__"; "__module__";
   "__ne__"; "__new__"; "__reduce__"; "__reduce_ex__"; "__repr__";
   "__setattr__"; "__sizeof__"; "__str__"; "__subclasshook__";
   "__weakref__"].

Definition inherited (name : string) : bool :=
  bool_decide (name ∈ object_names).

(** A simulator on a new kernel with the given time limit, as [simulate]
    builds it around the object [0]. *)
Definition fresh (stime_limit : option Z) : state_t :=
  mkState
    {| sim__handlers := HandlersDict__init__ None;
       sim__kernel := setup Kernel__init__ stime_limit;
       sim__params := _ParamsDict__init__ None;
       sim__logger_level := INFO;
       sim__data := Some 0%nat |}
    0%nat [].

End Scenario.

(** * Properties of the kernel *)
Section KernelFacts.
Context {V Fn : Type} `{!@Heapq V Fn} {W Data : Type}.
Context (body : Fn → Simulator (V:=V) (Fn:=Fn) (Data:=Data) → list V
                → list (string * V) → W → prog (V:=V) (Fn:=Fn) (W:=W) unit).
Context (has_initialize : Data → option Fn).

Implicit Types (k : @Kernel V Fn) (e x : @_Event V Fn) (log : list (@obs V Fn)).
Implicit Types (sim : @Simulator V Fn Data) (sims : list (@Simulator V Fn Data)).

(** An event of the queue is live when its [__removed] flag is unset. *)
Definition live k e : Prop := ev_id e ∉ removed_flags k.

(** The invariant of the kernel's private state (spec, section 3). *)
Record wf k : Prop := mk_wf {
  wf_heap : is_heap (__queue k);
  wf_nodup : NoDup (ev_id <$> __queue k);
  wf_bound : ∀ e, e ∈ __queue k →
      (ev_id e < __next_evid k)%nat ∧ __stime k ≤ ev_stime e;
  wf_evids : ∀ i e, __evids k !! i = Some e ↔
      e ∈ __queue k ∧ ev_id e = i ∧ live k e;
  wf_size : __queue_size k =
      Z.of_nat (length (filter (λ e, ev_id e ∉ removed_flags k) (__queue k)));
}.

Lemma removed_false k e : removed k e = false ↔ live k e.
Proof. unfold removed, live. by rewrite bool_decide_eq_false. Qed.

Lemma removed_true k e : removed k e = true ↔ ¬ live k e.
Proof.
  unfold removed, live. rewrite bool_decide_eq_true.
  split; [tauto|]. intros Hn. destruct (decide (ev_id e ∈ removed_flags k)); tauto.
Qed.

Lemma wf_init : wf (@Kernel__init__ V Fn).
Proof.
  split; simpl.
  - apply is_heap_nil.
  - constructor.
  - intros e He. by apply elem_of_nil in He.
  - intros i e. rewrite lookup_empty. split; [done|].
    intros [He _]. by apply elem_of_nil in He.
  - done.
Qed.

Lemma wf_setup k limit : wf k → wf (setup k limit).
Proof.
  intros Hk. unfold setup. destruct limit as [l|]; [|done].
  destruct (0 <? l); [|done]. by destruct Hk; split.
Qed.

Lemma filter_live_ext (P Q : @_Event V Fn → Prop)
    `{!∀ e, Decision (P e)} `{!∀ e, Decision (Q e)} (q : list _Event) :
  (∀ e, e ∈ q → P e ↔ Q e) → filter P q = filter Q q.
Proof.
  induction q as [|x q IH]; intros Hq; [done|].
  rewrite !filter_cons.
  rewrite IH by (intros e He; apply Hq; by right).
  destruct (decide (P x)) as [HP|HP], (decide (Q x)) as [HQ|HQ]; try done.
  - apply Hq in HP; [done|by left].
  - apply Hq in HQ; [done|by left].
Qed.

Lemma add_event_negative k delay h a kw :
  delay < 0 →
  add_event k delay h a kw = (Raise (ValueError "negative delay disallowed"), k).
Proof. intros Hd. unfold add_event. by apply Z.ltb_lt in Hd as ->. Qed.

Lemma add_event_accepts k delay h a kw :
  0 ≤ delay →
  add_event k delay h a kw =
    (Ok (__next_evid k),
     {| __queue := heappush (__queue k) (new_event k delay h a kw);
        __stime := __stime k;
        __evids := <[__next_evid k := new_event k delay h a kw]> (__evids k);
        __next_evid := S (__next_evid k);
        __num_events := __num_events k;
        __queue_size := __queue_size k + 1;
        __stop_predicates := __stop_predicates k;
        removed_flags := removed_flags k ∖ {[__next_evid k]} |}).
Proof. intros Hd. unfold add_event. by apply Z.ltb_ge in Hd as ->. Qed.

Lemma wf_add_event k delay h a kw :
  wf k → wf (add_event k delay h a kw).2.
Proof.
  intros Hk. destruct (Z.lt_ge_cases delay 0) as [Hd|Hd].
  { by rewrite add_event_negative. }
  rewrite add_event_accepts by done. simpl.
  set (ev := new_event k delay h a kw).
  assert (Hfresh : ∀ x, x ∈ __queue k → ev_id x ≠ __next_evid k).
  { intros x Hx. apply (wf_bound _ Hk) in Hx. lia. }
  destruct Hk as [Hheap Hnd Hb Hev Hsz]. split; simpl.
  - by apply heappush_is_heap.
  - rewrite heappush_perm. simpl. constructor; [|done].
    rewrite list_elem_of_fmap. intros (x & Hid & Hx).
    by apply Hfresh in Hx.
  - intros e He. rewrite heappush_perm in He.
    apply elem_of_cons in He as [->|He].
    + simpl. unfold stime. lia.
    + apply Hb in He. lia.
  - intros i e. unfold live. simpl. rewrite heappush_perm, elem_of_cons.
    destruct (decide (i = __next_evid k)) as [->|Hne].
    + rewrite lookup_insert_eq. split.
      * intros [= <-]. split_and!; [by left|done|set_solver].
      * intros ([->|He] & Hid & _); [done|]. by apply Hfresh in He.
    + rewrite lookup_insert_ne by done. rewrite Hev. unfold live. split.
      * intros (He & Hid & Hl). split_and!; [by right|done|set_solver].
      * intros ([->|He] & Hid & Hl); [done|]. split_and!; [done..|set_solver].
  - rewrite (Permutation_length
               (filter_Permutation _ _ _ (heappush_perm (__queue k) ev))).
    rewrite filter_cons. simpl.
    destruct (decide _) as [_|Hn]; [|set_solver].
    simpl. rewrite Hsz.
    rewrite (filter_live_ext
               (λ e, ev_id e ∉ removed_flags k ∖ {[__next_evid k]})
               (λ e, ev_id e ∉ removed_flags k)); [lia|].
    intros e He. apply Hfresh in He. set_solver.
Qed.


Lemma filter_remove_one (q : list (@_Event V Fn)) (F : gset nat) e :
  NoDup (ev_id <$> q) → e ∈ q → ev_id e ∉ F →
  length (filter (λ x, ev_id x ∉ F) q) =
  S (length (filter (λ x, ev_id x ∉ ({[ev_id e]} ∪ F : gset nat)) q)).
Proof.
  induction q as [|x q IH]; intros Hnd He HF.
  { by apply elem_of_nil in He. }
  rewrite fmap_cons in Hnd. apply NoDup_cons in Hnd as [Hx Hnd].
  rewrite !filter_cons.
  apply elem_of_cons in He as [<-|He].
  - destruct (decide (ev_id e ∉ F)); [|done].
    destruct (decide (ev_id e ∉ {[ev_id e]} ∪ F)) as [Hbad|_]; [set_solver|].
    simpl. f_equal. f_equal. apply filter_live_ext.
    intros y Hy. assert (ev_id y ≠ ev_id e); [|set_solver].
    intros Heq. apply Hx. rewrite <- Heq. by apply list_elem_of_fmap_2.
  - assert (ev_id x ≠ ev_id e) as Hne.
    { intros Heq. apply Hx. rewrite Heq. by apply list_elem_of_fmap_2. }
    specialize (IH Hnd He HF).
    destruct (decide (ev_id x ∉ F)) as [Hin|Hin];
      destruct (decide (ev_id x ∉ {[ev_id e]} ∪ F)) as [Hin'|Hin'];
      simpl; try lia; set_solver.
Qed.

Lemma remove_event_absent k evid :
  __evids k !! evid = None → remove_event k evid = (Ok None, k).
Proof. intros Hn. unfold remove_event. by rewrite Hn. Qed.

Lemma remove_event_present k evid e :
  __evids k !! evid = Some e → live k e →
  remove_event k evid =
    (Ok (Some e),
     {| __queue := __queue k; __stime := __stime k;
        __evids := delete evid (__evids k);
        __next_evid := __next_evid k; __num_events := __num_events k;
        __queue_size := __queue_size k - 1;
        __stop_predicates := __stop_predicates k;
        removed_flags := {[ev_id e]} ∪ removed_flags k |}).
Proof.
  intros Hs Hl. unfold remove_event, dict_del. rewrite Hs.
  apply removed_false in Hl. unfold removed in *. simpl. by rewrite Hl.
Qed.


Lemma wf_remove_event k evid : wf k → wf (remove_event k evid).2.
Proof.
  intros Hk. destruct (__evids k !! evid) as [e|] eqn:Hlk.
  2:{ by rewrite remove_event_absent. }
  pose proof (proj1 (wf_evids _ Hk _ _) Hlk) as (He & Hid & Hl).
  rewrite (remove_event_present _ _ _ Hlk Hl). simpl.
  destruct Hk as [Hheap Hnd Hb Hev Hsz]. split; simpl; try done.
  - intros i x. unfold live. simpl.
    destruct (decide (i = evid)) as [->|Hne].
    + rewrite lookup_delete_eq. split; [done|].
      intros (_ & Hi & Hn). set_solver.
    + rewrite lookup_delete_ne by done. rewrite Hev. unfold live.
      split; [|set_solver].
      intros (Hx & Hi & Hlx). split_and!; [done..|]. set_solver.
  - rewrite Hsz. rewrite (filter_remove_one _ _ e) by done. lia.
Qed.

(** What [_next_event] leaves behind when it returns [e]. *)
Record popped k e k' : Prop := mk_popped {
  pop_elem : e ∈ __queue k;
  pop_live : live k e;
  pop_index : __evids k !! ev_id e = Some e;
  pop_rest : ∀ x, x ∈ __queue k' → x ∈ __queue k ∧ event_lt e x = true;
  pop_keeps : ∀ x, x ∈ __queue k → live k x → x = e ∨ x ∈ __queue k';
  pop_stime : __stime k' = ev_stime e;
  pop_evids : __evids k' = delete (ev_id e) (__evids k);
  pop_next_evid : __next_evid k' = __next_evid k;
  pop_num_events : __num_events k' = __num_events k;
  pop_queue_size : __queue_size k' = __queue_size k - 1;
  pop_stop : __stop_predicates k' = __stop_predicates k;
  pop_flags : removed_flags k' = removed_flags k;
  pop_wf : wf k';
}.

(** What it leaves behind when the queue holds cancelled events only. *)
Record drained k k' : Prop := mk_drained {
  dr_none : ∀ x, x ∈ __queue k → ¬ live k x;
  dr_queue : ∀ x, x ∈ __queue k' → x ∈ __queue k;
  dr_stime : __stime k' = __stime k;
  dr_evids : __evids k' = __evids k;
  dr_next_evid : __next_evid k' = __next_evid k;
  dr_num_events : __num_events k' = __num_events k;
  dr_queue_size : __queue_size k' = __queue_size k;
  dr_wf : wf k';
}.

Lemma event_lt_stime e x : event_lt x e = false → ev_stime e ≤ ev_stime x.
Proof.
  unfold event_lt. intros Hf. apply orb_false_iff in Hf as [Hf _].
  by apply Z.ltb_ge in Hf.
Qed.

Lemma heappop_facts k e q' :
  wf k → heappop (__queue k) = Some (e, q') →
  (__queue k ≡ₚ e :: q') ∧ is_heap q' ∧ NoDup (ev_id <$> q') ∧
  (ev_id e ∉ ev_id <$> q') ∧
  (∀ x, x ∈ q' → event_lt e x = true).
Proof.
  intros Hk Hpop. pose proof (heappop_perm _ _ _ Hpop) as Hperm.
  pose proof (wf_nodup _ Hk) as Hnd. rewrite Hperm in Hnd.
  rewrite fmap_cons in Hnd. apply NoDup_cons in Hnd as [Hne Hnd].
  split_and!; try done.
  - eapply heappop_is_heap; [apply Hk|done].
  - intros x Hx. apply event_lt_total.
    + intros Heq. apply Hne. rewrite Heq. by apply list_elem_of_fmap_2.
    + eapply heappop_min; [apply Hk|done..].
Qed.

Lemma wf_skip k e q' :
  wf k → heappop (__queue k) = Some (e, q') → ¬ live k e →
  wf (set_queue q' k).
Proof.
  intros Hk Hpop Hdead.
  destruct (heappop_facts _ _ _ Hk Hpop) as (Hperm & Hheap & Hnd & Hne & Hmin).
  split; simpl; try done.
  - intros x Hx. apply (wf_bound _ Hk). rewrite Hperm. by right.
  - intros i x. rewrite (wf_evids _ Hk). unfold live. simpl.
    rewrite Hperm, elem_of_cons. split; [|tauto].
    intros ([->|Hx] & Hid & Hl); [done|tauto].
  - rewrite (wf_size _ Hk).
    rewrite (Permutation_length (filter_Permutation _ _ _ Hperm)).
    rewrite filter_cons. by destruct (decide _).
Qed.

Lemma next_event_loop_spec n k :
  wf k → (length (__queue k) ≤ n)%nat →
  match _next_event_loop n k with
  | (Ok e, k') => popped k e k'
  | (Raise ex, k') => ex = KeyError "pop from empty queue" ∧ drained k k'
  end.
Proof.
  revert k. induction n as [|n IH]; intros k Hk Hlen.
  - destruct (__queue k) as [|x q] eqn:Hq; [|simpl in Hlen; lia].
    unfold _next_event_loop. rewrite Hq. split; [done|].
    split; try done. rewrite Hq. intros x Hx. by apply elem_of_nil in Hx.
  - simpl. destruct (__queue k) as [|x0 q0] eqn:Hq.
    { split; [done|]. split; try done. rewrite Hq. intros x Hx.
      by apply elem_of_nil in Hx. }
    rewrite <- Hq. rewrite <- Hq in Hlen.
    destruct (heappop (__queue k)) as [[e q']|] eqn:Hpop.
    2:{ destruct (heappop_is_Some (__queue k)) as [? Hs]; [by rewrite Hq|].
        congruence. }
    destruct (heappop_facts _ _ _ Hk Hpop) as (Hperm & Hheap & Hnd & Hne & Hmin).
    assert (He : e ∈ __queue k) by (rewrite Hperm; by left).
    destruct (removed (set_queue q' k) e) eqn:Hrem; simpl.
    + (* a cancelled event: skipped *)
      apply removed_true in Hrem.
      assert (Hdead : ¬ live k e) by done.
      pose proof (wf_skip _ _ _ Hk Hpop Hdead) as Hk1.
      assert (Hlen1 : (length (__queue (set_queue q' k)) ≤ n)%nat).
      { simpl. apply Permutation_length in Hperm. simpl in Hperm. lia. }
      specialize (IH _ Hk1 Hlen1).
      destruct (_next_event_loop n (set_queue q' k)) as [[e2|ex] k'].
      * destruct IH. split; try done.
        -- rewrite Hperm. by right.
        -- intros x Hx. destruct (pop_rest0 x Hx) as [Hx' ?]. split; [|done].
           rewrite Hperm. by right.
        -- intros x Hx Hl. rewrite Hperm in Hx.
           apply elem_of_cons in Hx as [->|Hx]; [done|]. by apply pop_keeps0.
      * destruct IH as [-> []]. split; [done|]. split; try done.
        -- intros x Hx. rewrite Hperm in Hx.
           apply elem_of_cons in Hx as [->|Hx]; [done|]. by apply dr_none0.
        -- intros x Hx. rewrite Hperm. right. by apply dr_queue0.
    + (* a live event: returned *)
      apply removed_false in Hrem. assert (Hl : live k e) by done.
      destruct (wf_bound _ Hk _ He) as [Hid Hst].
      assert (Hlk : __evids k !! ev_id e = Some e) by (by apply (wf_evids _ Hk)).
      destruct (ev_stime e <? __stime k) eqn:Hassert.
      { apply Z.ltb_lt in Hassert. lia. }
      unfold dict_del. simpl. rewrite Hlk.
      split; simpl; try done.
      * intros x Hx. split; [|by apply Hmin]. rewrite Hperm. by right.
      * intros x Hx _. rewrite Hperm in Hx. by apply elem_of_cons in Hx.
      * split; simpl; try done.
        -- intros x Hx. split.
           ++ apply (wf_bound _ Hk). rewrite Hperm. by right.
           ++ apply event_lt_stime. by apply event_lt_asym, Hmin.
        -- intros i x. unfold live. simpl.
           destruct (decide (i = ev_id e)) as [->|Hni].
           ++ rewrite lookup_delete_eq. split; [done|].
              intros (Hx & Hi & _). destruct Hne. rewrite <- Hi.
              by apply list_elem_of_fmap_2.
           ++ rewrite lookup_delete_ne by done. rewrite (wf_evids _ Hk).
              unfold live. rewrite Hperm, elem_of_cons. split; [|tauto].
              intros ([->|Hx] & Hi & Hlx); [done|tauto].
        -- rewrite (wf_size _ Hk).
           rewrite (Permutation_length (filter_Permutation _ _ _ Hperm)).
           rewrite filter_cons. destruct (decide _); [|done]. simpl. lia.
Qed.

(** The bound on the turns of the loop in [_next_event] is never what ends
    it: any bound from the length of the queue on gives the same result. *)
Lemma next_event_loop_bound n m k :
  (length (__queue k) ≤ n)%nat → (length (__queue k) ≤ m)%nat →
  _next_event_loop n k = _next_event_loop m k.
Proof.
  revert m k. induction n as [|n IH]; intros m k Hn Hm.
  - destruct (__queue k) as [|x q] eqn:Hq; [|simpl in Hn; lia].
    destruct m; simpl; by rewrite Hq.
  - destruct m as [|m].
    { destruct (__queue k) as [|x q] eqn:Hq; [|simpl in Hm; lia].
      simpl. by rewrite Hq. }
    simpl. destruct (__queue k) as [|x q] eqn:Hq; [done|]. rewrite <- Hq in *.
    destruct (heappop (__queue k)) as [[e q']|] eqn:Hpop; [|done].
    destruct (negb (removed (set_queue q' k) e)); [done|].
    apply heappop_perm, Permutation_length in Hpop. simpl in Hpop.
    apply IH; simpl; lia.
Qed.

Lemma next_event_spec k :
  wf k →
  match _next_event k with
  | (Ok e, k') => popped k e k'
  | (Raise ex, k') => ex = KeyError "pop from empty queue" ∧ drained k k'
  end.
Proof. intros Hk. by apply next_event_loop_spec. Qed.

(** A kernel that is not [empty] has a live event, so [_next_event]
    returns one: neither the KeyError nor the assertion is reached. *)
Lemma next_event_returns k :
  wf k → empty k = false → ∃ e k', _next_event k = (Ok e, k') ∧ popped k e k'.
Proof.
  intros Hk Hne. pose proof (next_event_spec k Hk) as Hs.
  destruct (_next_event k) as [[e|ex] k']; [by eauto|].
  destruct Hs as [_ Hd]. exfalso.
  unfold empty in Hne. apply Z.eqb_neq in Hne. apply Hne.
  rewrite (wf_size _ Hk).
  destruct (filter _ (__queue k)) as [|x l] eqn:Hf; [done|].
  assert (Hx : x ∈ filter (λ e, ev_id e ∉ removed_flags k) (__queue k)).
  { rewrite Hf. by left. }
  apply list_elem_of_filter in Hx as [Hl Hx].
  by destruct (dr_none _ _ Hd x Hx).
Qed.

Lemma wf_next_event k : wf k → wf (_next_event k).2.
Proof.
  intros Hk. pose proof (next_event_spec k Hk) as Hs.
  destruct (_next_event k) as [[e|ex] k']; simpl.
  - apply Hs.
  - apply Hs.
Qed.


(** ** Invariants of a run

    A property of the kernel and the log that every primitive step keeps is
    kept by user code, by the dispatch loop and by [run]. *)
Definition is_mark (m : @obs V Fn) : Prop :=
  m = OInitialize ∨ m = OInit ∨ m = OFin.

Record step_invariant (I : @Kernel V Fn → list (@obs V Fn) → Prop) : Prop := {
  si_schedule k log d h a kw :
    0 ≤ d → I k log →
    I (add_event k d h a kw).2 (log ++ [OSchedule (new_event k d h a kw)]);
  si_cancel k log evid :
    I k log → I (remove_event k evid).2 (log ++ [OCancel evid]);
  si_pop k log e k1 :
    I k log → _next_event k = (Ok e, k1) → I k1 (log ++ [OPop e]);
  si_pop_raise k log ex k1 :
    I k log → _next_event k = (Raise ex, k1) → I k1 log;
  si_call k log e :
    I k (log ++ [OPop e]) → I k ((log ++ [OPop e]) ++ [OCall e]);
  si_bump k log : I k log → I (bump k) log;
  si_mark k log m : is_mark m → I k log → I k (log ++ [m]);
}.

Section Invariant.
Context (I : @Kernel V Fn → list (@obs V Fn) → Prop) (HI : step_invariant I).

Lemma exec_invariant {R} (p : prog R) (sim : Simulator (Data:=Data)) log :
  I (sim__kernel sim) log →
  I (kernel_of (exec (W:=W) p sim log).2) (st_log (exec p sim log).2).
Proof.
  revert sim log.
  induction p as [r w|ex w|d h a kw rest IH|evid rest IH]; intros sim log Hi;
    simpl; try done.
  - unfold Simulator_schedule.
    destruct (add_event (sim__kernel sim) d h a kw) as [r k'] eqn:Hadd.
    apply IH. simpl.
    destruct (Z.lt_ge_cases d 0) as [Hd|Hd].
    + rewrite add_event_negative in Hadd by done. by simplify_eq.
    + pose proof (si_schedule _ HI _ _ d h a kw Hd Hi) as Hs.
      rewrite Hadd in Hs. rewrite add_event_accepts in Hadd by done.
      by simplify_eq.
  - unfold Simulator_cancel.
    pose proof (si_cancel _ HI _ _ evid Hi) as Hs.
    destruct (remove_event (sim__kernel sim) evid) as [r k'].
    by apply IH.
Qed.

Lemma call_hook_invariant hook m (s : State (W:=W) (Data:=Data)) :
  is_mark m → I (kernel_of s) (st_log s) →
  I (kernel_of (call_hook body hook m s).2)
    (st_log (call_hook body hook m s).2).
Proof.
  intros Hm Hi. unfold call_hook. destruct hook as [fn|]; [|done].
  apply exec_invariant. by apply (si_mark _ HI).
Qed.

Lemma run_loop_invariant fuel (s : State (W:=W) (Data:=Data)) :
  I (kernel_of s) (st_log s) →
  I (kernel_of (run_loop body fuel s).2) (st_log (run_loop body fuel s).2).
Proof.
  revert s. induction fuel as [|fuel IH]; intros s Hi; simpl.
  - by destruct (empty (kernel_of s)).
  - destruct (empty (kernel_of s)); [done|].
    destruct (_next_event (kernel_of s)) as [[e|ex] k1] eqn:Hpop; simpl.
    2:{ by apply (si_pop_raise _ HI _ _ _ _ Hi Hpop). }
    pose proof (si_pop _ HI _ _ _ _ Hi Hpop) as Hi1.
    destruct (negb (_test_stop k1)); [|done].
    destruct (ev_fn e) as [fn|]; [|by apply IH].
    pose proof (exec_invariant
      (body fn (set_kernel k1 (st_sim s)) (ev_args e) (ev_kwargs e) (st_world s))
      (set_kernel k1 (st_sim s)) ((st_log s ++ [OPop e]) ++ [OCall e])
      (si_call _ HI _ _ _ Hi1)) as Hi2.
    destruct (exec _ _ _) as [[r|ex] s2]; simpl in *; [|done].
    apply IH. simpl. by apply (si_bump _ HI).
Qed.

Lemma run_invariant fuel init fin (s : State (W:=W) (Data:=Data)) :
  I (kernel_of s) (st_log s) →
  I (kernel_of (run body has_initialize fuel init fin s).2)
    (st_log (run body has_initialize fuel init fin s).2).
Proof.
  intros Hi. unfold run.
  set (h0 := data_initialize has_initialize (st_sim s)).
  pose proof (call_hook_invariant h0 OInitialize s
                (or_introl eq_refl) Hi) as H1.
  destruct (call_hook body h0 OInitialize s) as [[?|ex] s1]; [|done].
  pose proof (call_hook_invariant init OInit s1
                (or_intror (or_introl eq_refl)) H1) as H2.
  destruct (call_hook body init OInit s1) as [[?|ex] s2]; [|done].
  pose proof (run_loop_invariant fuel s2 H2) as H3.
  destruct (run_loop body fuel s2) as [[?|ex|] s3]; try done.
  pose proof (call_hook_invariant fin OFin s3
                (or_intror (or_intror eq_refl)) H3) as H4.
  by destruct (call_hook body fin OFin s3) as [[?|ex] s4].
Qed.

End Invariant.

(** The kernel's invariant is kept by every step. *)
Lemma wf_step_invariant : step_invariant (λ k _, wf k).
Proof.
  split; simpl.
  - intros k _ d h a kw _ Hk. by apply wf_add_event.
  - intros k _ evid Hk. by apply wf_remove_event.
  - intros k _ e k1 Hk Hpop. pose proof (wf_next_event k Hk) as Hw.
    by rewrite Hpop in Hw.
  - intros k _ ex k1 Hk Hpop. pose proof (wf_next_event k Hk) as Hw.
    by rewrite Hpop in Hw.
  - done.
  - intros k _ Hk. by destruct Hk.
  - done.
Qed.


(** ** What user code can and cannot change

    User code reaches the kernel through [schedule] and [cancel] only: it
    leaves the clock, the event counter, the stop predicates and the rest of
    the simulator alone, and logs nothing but its own calls. *)
Definition is_api (o : @obs V Fn) : Prop :=
  match o with
  | OSchedule _ | OCancel _ => True
  | _ => False
  end.

Record framed (sim : Simulator (V:=V) (Fn:=Fn) (Data:=Data)) log
    (s' : State (V:=V) (Fn:=Fn) (W:=W) (Data:=Data)) : Prop := mk_framed {
  fr_stime : __stime (kernel_of s') = __stime (sim__kernel sim);
  fr_num_events : __num_events (kernel_of s') = __num_events (sim__kernel sim);
  fr_stop : __stop_predicates (kernel_of s') = __stop_predicates (sim__kernel sim);
  fr_next_evid : (__next_evid (sim__kernel sim) ≤ __next_evid (kernel_of s'))%nat;
  fr_handlers : sim__handlers (st_sim s') = sim__handlers sim;
  fr_params : sim__params (st_sim s') = sim__params sim;
  fr_level : sim__logger_level (st_sim s') = sim__logger_level sim;
  fr_data : sim__data (st_sim s') = sim__data sim;
  fr_log : ∃ new, st_log s' = log ++ new ∧ Forall is_api new;
}.

Lemma add_event_frame k d h a kw :
  __stime (add_event k d h a kw).2 = __stime k ∧
  __num_events (add_event k d h a kw).2 = __num_events k ∧
  __stop_predicates (add_event k d h a kw).2 = __stop_predicates k ∧
  (__next_evid k ≤ __next_evid (add_event k d h a kw).2)%nat.
Proof.
  unfold add_event. destruct (d <? 0); simpl; split_and!; try done. lia.
Qed.

Lemma remove_event_frame k evid :
  __stime (remove_event k evid).2 = __stime k ∧
  __num_events (remove_event k evid).2 = __num_events k ∧
  __stop_predicates (remove_event k evid).2 = __stop_predicates k ∧
  __next_evid (remove_event k evid).2 = __next_evid k ∧
  __queue (remove_event k evid).2 = __queue k.
Proof.
  unfold remove_event, dict_del.
  destruct (__evids k !! evid); [|done]. by destruct (negb _).
Qed.

Lemma exec_framed {R} (p : prog R) (sim : Simulator (Data:=Data)) log :
  framed sim log (exec (W:=W) p sim log).2.
Proof.
  revert sim log.
  induction p as [r w|ex w|d h a kw rest IH|evid rest IH]; intros sim log; simpl.
  - split; try done. exists []. by rewrite app_nil_r.
  - split; try done. exists []. by rewrite app_nil_r.
  - unfold Simulator_schedule.
    pose proof (add_event_frame (sim__kernel sim) d h a kw) as (F1 & F2 & F3 & F4).
    destruct (add_event (sim__kernel sim) d h a kw) as [r k'].
    simpl in *.
    destruct (IH r (set_kernel k' sim)
                (match r with
                 | Ok _ => log ++ [OSchedule (new_event (sim__kernel sim) d h a kw)]
                 | Raise _ => log
                 end)) as [G1 G2 G3 G4 G5 G6 G7 G8 (new & G9 & G10)].
    simpl in *. split; try congruence; [lia|].
    destruct r.
    + eexists (_ :: new). rewrite G9, <- app_assoc. split; [done|].
      by constructor.
    + by exists new.
  - unfold Simulator_cancel.
    pose proof (remove_event_frame (sim__kernel sim) evid) as (F1 & F2 & F3 & F4 & _).
    destruct (remove_event (sim__kernel sim) evid) as [r k'].
    simpl in *.
    destruct (IH (match r with Ok _ => Ok () | Raise e => Raise e end)
                 (set_kernel k' sim) (log ++ [OCancel evid]))
      as [G1 G2 G3 G4 G5 G6 G7 G8 (new & G9 & G10)].
    simpl in *. split; try congruence.
    eexists (_ :: new). rewrite G9, <- app_assoc. split; [done|].
    by constructor.
Qed.

Lemma call_hook_framed hook m (s : State (W:=W) (Data:=Data)) :
  ∃ new, framed (st_sim s) (st_log s ++ new) (call_hook body hook m s).2 ∧
         (new = [] ∧ hook = None ∨ new = [m] ∧ is_Some hook).
Proof.
  unfold call_hook. destruct hook as [fn|].
  - exists [m]. split; [apply exec_framed|right; by eauto].
  - exists []. split; [|by left]. rewrite app_nil_r.
    split; try done. exists []. by rewrite app_nil_r.
Qed.

Lemma set_kernel_same (sim : Simulator (V:=V) (Fn:=Fn) (Data:=Data)) :
  set_kernel (sim__kernel sim) sim = sim.
Proof. by destruct sim. Qed.

(** ** C4: schedule *)

(** C4. [schedule] with a negative delay raises the ValueError that is the
    spec's NegativeDelay, to the caller, and leaves the kernel as it was;
    with a delay that is not negative it returns the next id of the counter,
    which no event of the kernel carries, and the kernel then holds one more
    event, live, indexed under that id, due at [stime + delay]. *)
Theorem C4_schedule (sim : Simulator (V:=V) (Fn:=Fn) (Data:=Data))
    (delay : Z) (handler : option Fn) (args : list V)
    (kwargs : option (list (string * V))) :
  let k := sim__kernel sim in
  let event := mk_Event (__next_evid k) (stime k + delay) handler args
                        (match kwargs with None => [] | Some kw => kw end) in
  (delay < 0 →
     add_event k delay handler args kwargs
       = (Raise (ValueError "negative delay disallowed"), k) ∧
     Simulator_schedule sim delay handler args kwargs
       = (Raise (ValueError "negative delay disallowed"), sim)) ∧
  (0 ≤ delay →
     ∃ k', add_event k delay handler args kwargs = (Ok (ev_id event), k') ∧
           Simulator_schedule sim delay handler args kwargs
             = (Ok (ev_id event), set_kernel k' sim) ∧
           ev_stime event = stime k + delay ∧
           __queue k' ≡ₚ event :: __queue k ∧
           __evids k' = <[ev_id event := event]> (__evids k) ∧
           __queue_size k' = __queue_size k + 1 ∧
           __next_evid k' = S (ev_id event) ∧
           stime k' = stime k ∧
           live k' event ∧
           (wf k → __evids k !! ev_id event = None ∧
                   (∀ x, x ∈ __queue k → ev_id x ≠ ev_id event) ∧
                   wf k')).
Proof.
  intros k event. split; intros Hd.
  - unfold Simulator_schedule. fold k.
    rewrite (add_event_negative k) by done. split; [done|].
    unfold k. by rewrite set_kernel_same.
  - unfold Simulator_schedule. fold k.
    pose proof (wf_add_event k delay handler args kwargs) as Hwf.
    rewrite (add_event_accepts k) in * by done.
    eexists. split; [reflexivity|]. simpl.
    split_and!; try done.
    + apply heappush_perm.
    + unfold live. simpl. set_solver.
    + intros Hk.
      assert (Hfresh : ∀ x, x ∈ __queue k → ev_id x ≠ __next_evid k).
      { intros x Hx. apply (wf_bound _ Hk) in Hx. lia. }
      split_and!; [|done|by apply Hwf].
      destruct (__evids k !! __next_evid k) as [x|] eqn:Hx; [|done].
      apply (wf_evids _ Hk) in Hx as (Hx & Hid & _).
      by apply Hfresh in Hx.
Qed.


(** The log only grows. *)
Lemma log_extends_invariant log0 :
  step_invariant (λ _ log, ∃ new, log = log0 ++ new).
Proof.
  split; intros; try done;
    repeat match goal with
           | X : ∃ _, _ |- _ => destruct X as [? ->]
           end;
    rewrite <- ?app_assoc; by eauto.
Qed.

Lemma run_loop_log_extends fuel (s : State (W:=W) (Data:=Data)) :
  ∃ new, st_log (run_loop body fuel s).2 = st_log s ++ new.
Proof.
  apply (run_loop_invariant _ (log_extends_invariant (st_log s))).
  exists []. by rewrite app_nil_r.
Qed.

(** One turn of the dispatch loop, spelled out. *)
Lemma run_loop_turn fuel (s : State (W:=W) (Data:=Data)) e k1 :
  empty (kernel_of s) = false →
  _next_event (kernel_of s) = (Ok e, k1) →
  run_loop body (S fuel) s =
    let sim1 := set_kernel k1 (st_sim s) in
    let log1 := st_log s ++ [OPop e] in
    if negb (_test_stop k1) then
      match ev_fn e with
      | Some fn =>
          match exec (body fn sim1 (ev_args e) (ev_kwargs e) (st_world s))
                     sim1 (log1 ++ [OCall e]) with
          | (Ok _, s2) =>
              run_loop body fuel
                (mkState (bump_num_events (st_sim s2)) (st_world s2) (st_log s2))
          | (Raise ex, s2) => (Raised ex, s2)
          end
      | None => run_loop body fuel (mkState sim1 (st_world s) log1)
      end
    else (Finished tt, mkState sim1 (st_world s) log1).
Proof. intros He Hp. simpl. by rewrite He, Hp. Qed.

(** ** C5: the time limit *)

Lemma test_stop_setup k limit :
  0 < limit →
  _test_stop (setup k (Some limit)) = _test_stop k || (limit <? stime k).
Proof.
  intros Hl. unfold setup. apply Z.ltb_lt in Hl as ->.
  unfold _test_stop, stime. simpl. rewrite existsb_app. simpl.
  by rewrite orb_false_r.
Qed.

(** C5. [setup] with a positive limit appends one predicate, which holds
    exactly when the clock is past the limit, strictly; with a limit of
    zero (or less) or with None it changes nothing; a second call appends a
    second predicate.  With that predicate alone, an event due at the limit
    or before is dispatched and an event due after it stops the loop. *)
Theorem C5_setup_time_limit k (limit : Z) :
  (0 < limit →
     __stop_predicates (setup k (Some limit)) = __stop_predicates k ++ [limit] ∧
     _test_stop (setup k (Some limit)) = _test_stop k || (limit <? stime k) ∧
     (__stop_predicates k = [] →
        (_test_stop (setup k (Some limit)) = true ↔ limit < stime k)) ∧
     (∀ limit2, 0 < limit2 →
        __stop_predicates (setup (setup k (Some limit)) (Some limit2))
          = __stop_predicates k ++ [limit; limit2])) ∧
  (limit ≤ 0 → setup k (Some limit) = k) ∧
  setup k None = k ∧
  (∀ fuel (s : State (W:=W) (Data:=Data)) e k1,
     0 < limit → wf (kernel_of s) →
     __stop_predicates (kernel_of s) = [limit] →
     empty (kernel_of s) = false →
     _next_event (kernel_of s) = (Ok e, k1) →
     (ev_stime e ≤ limit →
        _test_stop k1 = false ∧
        ∀ fn, ev_fn e = Some fn →
          ∃ rest, st_log (run_loop body (S fuel) s).2
                    = st_log s ++ [OPop e; OCall e] ++ rest) ∧
     (limit < ev_stime e →
        _test_stop k1 = true ∧
        run_loop body (S fuel) s =
          (Finished tt, mkState (set_kernel k1 (st_sim s)) (st_world s)
                                (st_log s ++ [OPop e])))).
Proof.
  split_and!.
  - intros Hl. split_and!.
    + unfold setup. by apply Z.ltb_lt in Hl as ->.
    + by apply test_stop_setup.
    + intros Hnil. rewrite test_stop_setup by done.
      unfold _test_stop at 1. rewrite Hnil. simpl. apply Z.ltb_lt.
    + intros l2 Hl2. unfold setup.
      apply Z.ltb_lt in Hl as ->. apply Z.ltb_lt in Hl2 as ->. simpl.
      by rewrite <- app_assoc.
  - intros Hl. unfold setup. by apply Z.ltb_ge in Hl as ->.
  - done.
  - intros fuel s e k1 Hl Hk Hpred Hne Hpop.
    pose proof (next_event_spec _ Hk) as Hs. rewrite Hpop in Hs.
    assert (Hts : _test_stop k1 = (limit <? ev_stime e)).
    { unfold _test_stop, stime.
      rewrite (pop_stop _ _ _ Hs), (pop_stime _ _ _ Hs), Hpred. simpl.
      by rewrite orb_false_r. }
    split; intros Hcmp.
    + assert (Hf : _test_stop k1 = false).
      { rewrite Hts. by apply Z.ltb_ge. }
      split; [done|]. intros fn Hfn.
      rewrite (run_loop_turn _ _ _ _ Hne Hpop). simpl. rewrite Hf, Hfn. simpl.
      set (sim1 := set_kernel k1 (st_sim s)).
      destruct (exec_framed
                  (body fn sim1 (ev_args e) (ev_kwargs e) (st_world s))
                  sim1 ((st_log s ++ [OPop e]) ++ [OCall e]))
        as [_ _ _ _ _ _ _ _ (new & Hlog & _)].
      destruct (exec _ _ _) as [[r|ex] s2]; simpl in *.
      * destruct (run_loop_log_extends fuel
                    (mkState (bump_num_events (st_sim s2)) (st_world s2)
                             (st_log s2))) as [new' Hlog'].
        simpl in Hlog'. rewrite Hlog', Hlog. exists (new ++ new').
        by rewrite <- !app_assoc.
      * exists new. rewrite Hlog. by rewrite <- !app_assoc.
    + assert (Ht : _test_stop k1 = true).
      { rewrite Hts. by apply Z.ltb_lt. }
      split; [done|].
      rewrite (run_loop_turn _ _ _ _ Hne Hpop). simpl. by rewrite Ht.
Qed.


(** ** C2 and C10: what a turn of the loop does to the clock and the count *)

(** [_next_event] touches the queue, the clock, the id table and the size
    only, and sets the clock to the fire-time of the event it returns. *)
Lemma next_event_loop_frame n k :
  __num_events (_next_event_loop n k).2 = __num_events k ∧
  __stop_predicates (_next_event_loop n k).2 = __stop_predicates k ∧
  __next_evid (_next_event_loop n k).2 = __next_evid k ∧
  removed_flags (_next_event_loop n k).2 = removed_flags k ∧
  (∀ e, (_next_event_loop n k).1 = Ok e →
     __stime (_next_event_loop n k).2 = ev_stime e ∧
     __queue_size (_next_event_loop n k).2 = __queue_size k - 1 ∧
     __evids (_next_event_loop n k).2 = delete (ev_id e) (__evids k) ∧
     removed k e = false).
Proof.
  revert k. induction n as [|n IH]; intros k; simpl.
  - destruct (__queue k) as [|x q]; [done|].
    destruct (heappop (x :: q)) as [[e q']|]; [|done].
    destruct (removed (set_queue q' k) e) eqn:Hr; simpl; [done|].
    destruct (ev_stime e <? __stime k); [done|].
    unfold dict_del. simpl.
    destruct (__evids k !! ev_id e); simpl; [|done].
    split_and!; try done. by intros ? [= <-].
  - destruct (__queue k) as [|x q]; [done|].
    destruct (heappop (x :: q)) as [[e q']|]; [|done].
    destruct (removed (set_queue q' k) e) eqn:Hr; simpl.
    + destruct (IH (set_queue q' k)) as (I1 & I2 & I3 & I4 & I5).
      split_and!; try done.
    + destruct (ev_stime e <? __stime k); [done|].
      unfold dict_del. simpl.
      destruct (__evids k !! ev_id e); simpl; [|done].
      split_and!; try done. by intros ? [= <-].
Qed.

Lemma next_event_frame k e k1 :
  _next_event k = (Ok e, k1) →
  stime k1 = ev_stime e ∧ num_events k1 = num_events k ∧
  __stop_predicates k1 = __stop_predicates k ∧
  __next_evid k1 = __next_evid k ∧
  __queue_size k1 = __queue_size k - 1 ∧
  __evids k1 = delete (ev_id e) (__evids k) ∧
  removed k e = false.
Proof.
  intros Hp. unfold _next_event in Hp.
  destruct (next_event_loop_frame (length (__queue k)) k)
    as (F1 & F2 & F3 & F4 & F5).
  rewrite Hp in *. simpl in *.
  destruct (F5 e eq_refl) as (G1 & G2 & G3 & G4). by split_and!.
Qed.



(** The number of handler calls recorded in a log. *)
Fixpoint count_calls (l : list (@obs V Fn)) : nat :=
  match l with
  | [] => 0
  | OCall _ :: l' => S (count_calls l')
  | _ :: l' => count_calls l'
  end.

Lemma count_calls_app l1 l2 :
  count_calls (l1 ++ l2) = (count_calls l1 + count_calls l2)%nat.
Proof.
  induction l1 as [|o l1 IH]; [done|]. destruct o; simpl; by rewrite ?IH.
Qed.

Lemma count_calls_api l : Forall is_api l → count_calls l = 0%nat.
Proof. induction 1 as [|o l Ho _ IH]; [done|]. by destruct o. Qed.

(** The event counter against the handler calls of the dispatch loop: it
    grows by one for each call that returns. *)
Lemma run_loop_counts fuel (s : State (W:=W) (Data:=Data)) :
  ∃ new, st_log (run_loop body fuel s).2 = st_log s ++ new ∧
    (num_events (kernel_of (run_loop body fuel s).2)
       ≤ num_events (kernel_of s) + count_calls new)%nat ∧
    ((∀ ex, (run_loop body fuel s).1 ≠ Raised ex) →
     num_events (kernel_of (run_loop body fuel s).2)
       = (num_events (kernel_of s) + count_calls new)%nat).
Proof.
  revert s. induction fuel as [|fuel IH]; intros s.
  { exists []. rewrite app_nil_r. simpl.
    destruct (empty (kernel_of s)); simpl; split_and!; try done; lia. }
  destruct (empty (kernel_of s)) eqn:Hne.
  { exists []. rewrite app_nil_r. simpl. rewrite Hne. simpl.
    split_and!; try done; lia. }
  destruct (_next_event (kernel_of s)) as [[e|ex] k1] eqn:Hpop.
  2:{ exists []. rewrite app_nil_r. simpl. rewrite Hne, Hpop. simpl.
      unfold _next_event in Hpop.
      destruct (next_event_loop_frame (length (__queue (kernel_of s)))
                  (kernel_of s)) as (F1 & _).
      rewrite Hpop in F1. simpl in F1. unfold num_events, kernel_of in *.
      simpl. split_and!; [done|lia|]. intros Hno. by destruct (Hno ex). }
  destruct (next_event_frame _ _ _ Hpop) as (_ & F2 & _).
  rewrite (run_loop_turn _ _ _ _ Hne Hpop). simpl.
  destruct (_test_stop k1); simpl.
  { exists [OPop e]. unfold num_events, kernel_of in *. simpl.
    split_and!; [done|lia|]. intros _. lia. }
  destruct (ev_fn e) as [fn|].
  - set (sim1 := set_kernel k1 (st_sim s)).
    destruct (exec_framed
                (body fn sim1 (ev_args e) (ev_kwargs e) (st_world s))
                sim1 ((st_log s ++ [OPop e]) ++ [OCall e]))
      as [_ G2 _ _ _ _ _ _ (new & Hlog & Hapi)].
    destruct (exec _ _ _) as [[r|ex] s2]; simpl in *.
    + destruct (IH (mkState (bump_num_events (st_sim s2)) (st_world s2)
                            (st_log s2))) as (new' & L1 & L2 & L3).
      simpl in *. exists ([OPop e; OCall e] ++ new ++ new').
      split; [rewrite L1, Hlog; by rewrite <- !app_assoc|].
      rewrite !count_calls_app, (count_calls_api new) by done.
      unfold num_events, kernel_of in *. simpl in *.
      split; [lia|]. intros Hno. specialize (L3 Hno). lia.
    + exists ([OPop e; OCall e] ++ new).
      split; [rewrite Hlog; by rewrite <- !app_assoc|].
      rewrite count_calls_app, (count_calls_api new) by done.
      unfold num_events, kernel_of in *. simpl in *.
      split; [lia|]. intros Hno. by destruct (Hno ex).
  - destruct (IH (mkState (set_kernel k1 (st_sim s)) (st_world s)
                          (st_log s ++ [OPop e]))) as (new' & L1 & L2 & L3).
    simpl in *. exists ([OPop e] ++ new').
    split; [rewrite L1; by rewrite <- !app_assoc|].
    unfold num_events, kernel_of in *. simpl in *.
    split; [lia|]. intros Hno. specialize (L3 Hno). lia.
Qed.

(** C10. [schedule] takes an omitted or None handler for every delay that
    is not negative.  When the loop pops such an event the clock moves to
    its fire-time and the stop predicates are tested, but nothing is called
    and the counter stays: the loop either stops or goes on to the next
    turn.  The counter grows only with handler calls. *)
Theorem C10_event_without_handler :
  (∀ k delay args kwargs, 0 ≤ delay →
     ∃ k', add_event k delay None args kwargs = (Ok (__next_evid k), k') ∧
           __evids k' !! __next_evid k =
             Some (mk_Event (__next_evid k) (stime k + delay) None args
                     (match kwargs with None => [] | Some kw => kw end))) ∧
  (∀ fuel (s : State (W:=W) (Data:=Data)) e k1,
     empty (kernel_of s) = false →
     _next_event (kernel_of s) = (Ok e, k1) →
     ev_fn e = None →
     let s1 := mkState (set_kernel k1 (st_sim s)) (st_world s)
                       (st_log s ++ [OPop e]) in
     stime k1 = ev_stime e ∧
     num_events k1 = num_events (kernel_of s) ∧
     run_loop body (S fuel) s =
       if _test_stop k1 then (Finished tt, s1) else run_loop body fuel s1) ∧
  (∀ fuel (s : State (W:=W) (Data:=Data)),
     ∃ new, st_log (run_loop body fuel s).2 = st_log s ++ new ∧
       (num_events (kernel_of (run_loop body fuel s).2)
          ≤ num_events (kernel_of s) + count_calls new)%nat ∧
       ((∀ ex, (run_loop body fuel s).1 ≠ Raised ex) →
        num_events (kernel_of (run_loop body fuel s).2)
          = (num_events (kernel_of s) + count_calls new)%nat)).
Proof.
  split_and!.
  - intros k delay args kwargs Hd. rewrite add_event_accepts by done.
    eexists. split; [done|]. simpl. by rewrite lookup_insert_eq.
  - intros fuel s e k1 Hne Hpop Hfn s1.
    destruct (next_event_frame _ _ _ Hpop) as (F1 & F2 & _).
    split_and!; [done..|].
    rewrite (run_loop_turn _ _ _ _ Hne Hpop). simpl. rewrite Hfn.
    by destruct (_test_stop k1).
  - apply run_loop_counts.
Qed.


(** ** C1: the order of dispatch *)

(** The events popped, and the events scheduled, in the order of the log. *)
Definition pops (l : list (@obs V Fn)) : list _Event :=
  omap (λ o, match o with OPop e => Some e | _ => None end) l.

Definition scheds (l : list (@obs V Fn)) : list _Event :=
  omap (λ o, match o with OSchedule e => Some e | _ => None end) l.

(** The order of dispatch: earlier, or at the same time with a smaller id. *)
Definition before e1 e2 : Prop :=
  ev_stime e1 ≤ ev_stime e2 ∧
  (ev_stime e1 = ev_stime e2 → (ev_id e1 < ev_id e2)%nat).

Lemma event_lt_before e1 e2 : event_lt e1 e2 = true ↔ before e1 e2.
Proof.
  unfold event_lt, before.
  rewrite orb_true_iff, andb_true_iff, Z.ltb_lt, Z.eqb_eq, Nat.ltb_lt.
  split; [lia|]. intros [Hle Hid].
  destruct (Z.eq_dec (ev_stime e1) (ev_stime e2)); [right|left]; [auto|lia].
Qed.

Lemma StronglySorted_lookup_lt {A} (R : relation A) (l : list A) i j a b :
  StronglySorted R l → (i < j)%nat → l !! i = Some a → l !! j = Some b → R a b.
Proof.
  intros Hs. revert i j. induction Hs as [|x l Hs IH Hall]; intros i j Hij Hi Hj.
  { by rewrite lookup_nil in Hi. }
  destruct j as [|j]; [lia|]. simpl in Hj. destruct i as [|i]; simpl in Hi.
  - simplify_eq. rewrite Forall_forall in Hall. apply Hall.
    by eapply list_elem_of_lookup_2.
  - eapply (IH i j); [lia|done..].
Qed.

Lemma pops_snoc l o :
  pops (l ++ [o]) = pops l ++ match o with OPop e => [e] | _ => [] end.
Proof. unfold pops. rewrite omap_app. by destruct o. Qed.

Lemma scheds_snoc l o :
  scheds (l ++ [o]) = scheds l ++ match o with OSchedule e => [e] | _ => [] end.
Proof. unfold scheds. rewrite omap_app. by destruct o. Qed.

(** What the run keeps true about the order: every event popped so far is
    before everything still queued and was due no later than now; every id
    handed out so far is below the counter; the pops are in order and the
    scheduled ids grow. *)
Definition order_inv k log : Prop :=
  wf k ∧
  (∀ e, e ∈ pops log →
     (ev_id e < __next_evid k)%nat ∧ ev_stime e ≤ __stime k ∧
     ∀ x, x ∈ __queue k → event_lt e x = true) ∧
  (∀ e, e ∈ scheds log → (ev_id e < __next_evid k)%nat) ∧
  StronglySorted before (pops log) ∧
  StronglySorted (λ e1 e2, (ev_id e1 < ev_id e2)%nat) (scheds log).

Lemma event_lt_later e x :
  ev_stime e ≤ ev_stime x → (ev_id e < ev_id x)%nat → event_lt e x = true.
Proof. intros. apply event_lt_before. split; [done|lia]. Qed.

Lemma order_step_invariant : step_invariant order_inv.
Proof.
  split.
  - (* schedule *)
    intros k log d h a kw Hd (Hk & Hp & Hs & Sp & Ss).
    pose proof (wf_add_event k d h a kw Hk) as Hk'.
    rewrite add_event_accepts in * by done.
    unfold order_inv. rewrite pops_snoc, scheds_snoc, app_nil_r. simpl.
    split_and!; [done| | | done |].
    + intros e He. destruct (Hp e He) as (H1 & H2 & H3).
      split_and!; [lia|done|]. intros x Hx. rewrite heappush_perm in Hx.
      apply elem_of_cons in Hx as [->|Hx]; [|by apply H3].
      apply event_lt_later; simpl; [unfold stime; lia|done].
    + intros e He. apply elem_of_app in He as [He|He].
      * apply Hs in He. lia.
      * apply list_elem_of_singleton in He as ->. simpl. lia.
    + apply StronglySorted_app_2; [|done|repeat constructor].
      intros e1 e2 H1 H2. apply list_elem_of_singleton in H2 as ->.
      simpl. by apply Hs.
  - (* cancel *)
    intros k log evid (Hk & Hp & Hs & Sp & Ss).
    pose proof (wf_remove_event k evid Hk) as Hk'.
    destruct (remove_event_frame k evid) as (F1 & _ & _ & F4 & F5).
    unfold order_inv. rewrite pops_snoc, scheds_snoc, !app_nil_r, F1, F4, F5.
    by split_and!.
  - (* pop *)
    intros k log e k1 (Hk & Hp & Hs & Sp & Ss) Hpop.
    pose proof (next_event_spec k Hk) as Hspec. rewrite Hpop in Hspec.
    destruct Hspec.
    destruct (wf_bound _ Hk e pop_elem0) as [Hid Hst].
    unfold order_inv. rewrite pops_snoc, scheds_snoc, app_nil_r, pop_next_evid0, pop_stime0.
    split_and!; [done| |done| |done].
    + intros e' He'. apply elem_of_app in He' as [He'|He'].
      * destruct (Hp e' He') as (H1 & H2 & H3).
        split_and!; [done|lia|]. intros x Hx. apply H3. by apply pop_rest0.
      * apply list_elem_of_singleton in He' as ->.
        split_and!; [done|lia|]. intros x Hx. by apply pop_rest0.
    + apply StronglySorted_app_2; [|done|repeat constructor].
      intros e1 e2 H1 H2. apply list_elem_of_singleton in H2 as ->.
      apply event_lt_before. by apply Hp.
  - (* pop raising *)
    intros k log ex k1 (Hk & Hp & Hs & Sp & Ss) Hpop.
    pose proof (next_event_spec k Hk) as Hspec. rewrite Hpop in Hspec.
    destruct Hspec as [_ []].
    unfold order_inv. rewrite dr_next_evid0, dr_stime0.
    split_and!; try done.
    intros e He. destruct (Hp e He) as (H1 & H2 & H3).
    split_and!; [done..|]. intros x Hx. by apply H3, dr_queue0.
  - (* call *)
    intros k log e (Hk & Hp & Hs & Sp & Ss).
    unfold order_inv. rewrite pops_snoc, scheds_snoc, !app_nil_r. by split_and!.
  - (* bump *)
    intros k log (Hk & Hp & Hs & Sp & Ss).
    unfold order_inv. split_and!; try done. by destruct Hk.
  - (* mark *)
    intros k log m Hm (Hk & Hp & Hs & Sp & Ss).
    unfold order_inv. rewrite pops_snoc, scheds_snoc.
    destruct Hm as [->|[->| ->]]; rewrite !app_nil_r; by split_and!.
Qed.

(** C1. In a run started on a well-formed kernel, of any two events popped
    the one popped first is due no later, and when both are due at the same
    time it has the smaller id.  Ids are handed out in growing order, so two
    events scheduled for the same time are popped in the order in which
    they were scheduled. *)
Theorem C1_dispatch_order fuel init fin
    (s : State (V:=V) (Fn:=Fn) (W:=W) (Data:=Data)) :
  wf (kernel_of s) → st_log s = [] →
  let log := st_log (run body has_initialize fuel init fin s).2 in
  (∀ i j e1 e2, (i < j)%nat →
     pops log !! i = Some e1 → pops log !! j = Some e2 →
     ev_stime e1 ≤ ev_stime e2 ∧
     (ev_stime e1 = ev_stime e2 → (ev_id e1 < ev_id e2)%nat)) ∧
  (∀ i j e1 e2, (i < j)%nat →
     scheds log !! i = Some e1 → scheds log !! j = Some e2 →
     (ev_id e1 < ev_id e2)%nat) ∧
  (∀ i j e1 e2 p q, (i < j)%nat →
     scheds log !! i = Some e1 → scheds log !! j = Some e2 →
     ev_stime e1 = ev_stime e2 →
     pops log !! p = Some e1 → pops log !! q = Some e2 →
     (p < q)%nat).
Proof.
  intros Hk Hlog log.
  assert (Hinv : order_inv (kernel_of (run body has_initialize fuel init fin s).2) log).
  { apply (run_invariant _ order_step_invariant). rewrite Hlog.
    split_and!; [done| | |constructor|constructor].
    - intros e He. by apply elem_of_nil in He.
    - intros e He. by apply elem_of_nil in He. }
  destruct Hinv as (_ & _ & _ & Sp & Ss).
  assert (Hpops : ∀ i j e1 e2, (i < j)%nat →
     pops log !! i = Some e1 → pops log !! j = Some e2 → before e1 e2).
  { intros i j e1 e2. by apply StronglySorted_lookup_lt. }
  assert (Hscheds : ∀ i j e1 e2, (i < j)%nat →
     scheds log !! i = Some e1 → scheds log !! j = Some e2 →
     (ev_id e1 < ev_id e2)%nat).
  { intros i j e1 e2 Hij Hi Hj.
    exact (StronglySorted_lookup_lt _ _ _ _ _ _ Ss Hij Hi Hj). }
  split_and!; [done..|].
  intros i j e1 e2 p q Hij Hi Hj Hst Hp Hq.
  pose proof (Hscheds _ _ _ _ Hij Hi Hj) as Hid.
  destruct (lt_eq_lt_dec p q) as [[Hlt|Heq]|Hgt]; [done|..].
  - subst. rewrite Hp in Hq. simplify_eq. lia.
  - destruct (Hpops _ _ _ _ Hgt Hq Hp) as [_ Hc]. specialize (Hc (eq_sym Hst)). lia.
Qed.


(** ** C3: cancellation *)


(** [evid] was returned by a [schedule] of the log and cancelled later in it. *)
Definition cancelled log (evid : nat) : Prop :=
  ∃ i j e0, (i < j)%nat ∧ log !! i = Some (OSchedule e0) ∧ ev_id e0 = evid ∧
            log !! j = Some (OCancel evid).





Lemma cancelled_take log p evid :
  cancelled (take p log) evid → cancelled log evid.
Proof.
  intros (i & j & e0 & Hij & Hi & Hid & Hj). exists i, j, e0.
  apply lookup_take_Some in Hi as [Hi _].
  apply lookup_take_Some in Hj as [Hj _]. by split_and!.
Qed.








(** ** C9: simulate *)

(** The parts of the simulator that a run never touches. *)
Definition same_context (a b : Simulator (V:=V) (Fn:=Fn) (Data:=Data)) : Prop :=
  sim__handlers a = sim__handlers b ∧ sim__params a = sim__params b ∧
  sim__logger_level a = sim__logger_level b ∧ sim__data a = sim__data b.

Lemma exec_same_context {R} (p : prog R) (sim : Simulator (Data:=Data)) log :
  same_context (st_sim (exec (W:=W) p sim log).2) sim.
Proof. by destruct (exec_framed p sim log). Qed.

Lemma call_hook_same_context hook m (s : State (W:=W) (Data:=Data)) :
  same_context (st_sim (call_hook body hook m s).2) (st_sim s).
Proof.
  unfold call_hook. destruct hook; [apply exec_same_context|done].
Qed.

Lemma same_context_trans a b c :
  same_context a b → same_context b c → same_context a c.
Proof. unfold same_context. intros (?&?&?&?) (?&?&?&?). split_and!; congruence. Qed.

Lemma run_loop_same_context fuel (s : State (W:=W) (Data:=Data)) :
  same_context (st_sim (run_loop body fuel s).2) (st_sim s).
Proof.
  revert s. induction fuel as [|fuel IH]; intros s; simpl.
  - by destruct (empty (kernel_of s)).
  - destruct (empty (kernel_of s)); [done|].
    destruct (_next_event (kernel_of s)) as [[e|ex] k1]; simpl; [|done].
    destruct (negb (_test_stop k1)); [|done].
    destruct (ev_fn e) as [fn|].
    + pose proof (exec_same_context
        (body fn (set_kernel k1 (st_sim s)) (ev_args e) (ev_kwargs e) (st_world s))
        (set_kernel k1 (st_sim s)) ((st_log s ++ [OPop e]) ++ [OCall e])) as Hc.
      destruct (exec _ _ _) as [[r|ex] s2]; simpl in *; [|done].
      eapply same_context_trans; [apply IH|]. simpl.
      eapply same_context_trans; [|apply Hc]. done.
    + eapply same_context_trans; [apply IH|]. done.
Qed.

Lemma run_same_context fuel init fin (s : State (W:=W) (Data:=Data)) :
  same_context (st_sim (run body has_initialize fuel init fin s).2) (st_sim s).
Proof.
  unfold run.
  pose proof (call_hook_same_context
                (data_initialize has_initialize (st_sim s)) OInitialize s) as H1.
  destruct (call_hook body _ OInitialize s) as [[?|ex] s1]; [|done].
  pose proof (call_hook_same_context init OInit s1) as H2.
  destruct (call_hook body init OInit s1) as [[?|ex] s2];
    [|by eapply same_context_trans].
  pose proof (run_loop_same_context fuel s2) as H3.
  destruct (run_loop body fuel s2) as [[?|ex|] s3]; simpl in *;
    try (eapply same_context_trans; [done|]; by eapply same_context_trans).
  pose proof (call_hook_same_context fin OFin s3) as H4.
  destruct (call_hook body fin OFin s3) as [[?|ex] s4]; simpl in *;
    (eapply same_context_trans; [done|]; eapply same_context_trans; [done|];
     by eapply same_context_trans).
Qed.

(** [sims] is what single calls of [simulate], one per dict of [bags] and in
    that order, return when each starts in the world the one before left. *)
Fixpoint run_in_turn (fuel : nat) (data : protodata (V:=V) (Fn:=Fn) (W:=W) (Data:=Data))
    (init fin : option Fn) (handlers : option (gmap string Fn))
    (stime_limit : option Z) (loglevel : option Level)
    (bags : list (gmap string V)) sims (w w' : W) : Prop :=
  match bags, sims with
  | [], [] => w = w'
  | bag :: bags', sim :: sims' =>
      ∃ w1, simulate body has_initialize fuel data init fin handlers
                     (ParamsOne (Some bag)) stime_limit loglevel w
              = (Finished (OneSim sim), w1) ∧
            run_in_turn fuel data init fin handlers stime_limit loglevel
                        bags' sims' w1 w'
  | _, _ => False
  end.

(** Where the model of one run comes from. *)
Definition model_of_run (data : protodata (V:=V) (Fn:=Fn) (W:=W) (Data:=Data))
    (handlers : option (gmap string Fn)) (p : option (gmap string V))
    (loglevel : option Level) (w : W) sim : Prop :=
  let params := match p with None => ∅ | Some b => b end in
  let self :=
    {| sim__handlers := HandlersDict__init__ handlers;
       sim__kernel := Kernel__init__;
       sim__params := _ParamsDict__init__ (Some params);
       sim__logger_level := match loglevel with Some l => l | None => INFO end;
       sim__data := None |} in
  match data with
  | ModelSubclass ctor =>
      ∃ d s, exec (ctor self w) self [] = (Ok d, s) ∧ sim__data sim = Some d
  | ClassWithCreate create =>
      ∃ d w1, create params w = (Ok d, w1) ∧ sim__data sim = Some d
  | OtherClass ctor =>
      ∃ d w1, ctor params w = (Ok d, w1) ∧ sim__data sim = Some d
  | NotAClass d => sim__data sim = Some d
  end.

(** The run behind [sim] was made on a new kernel: a simulator built on
    [Kernel()], the limit set up on it, and [run]. *)
Definition on_new_kernel (fuel : nat)
    (data : protodata (V:=V) (Fn:=Fn) (W:=W) (Data:=Data))
    (init fin : option Fn) (handlers : option (gmap string Fn))
    (p : option (gmap string V)) (stime_limit : option Z)
    (loglevel : option Level) (w : W) sim : Prop :=
  ∃ s0 s1,
    Simulator__init__ Kernel__init__ data handlers p loglevel w = (Ok tt, s0) ∧
    run body has_initialize fuel init fin
        (mkState
           (set_kernel
              (setup (kernel_of s0)
                     (Some (match stime_limit with Some l => l | None => 0 end)))
              (st_sim s0))
           (st_world s0) (st_log s0))
      = (Finished tt, s1) ∧
    sim = st_sim s1.

Lemma Simulator_init_facts kernel data handlers p loglevel (w : W) s :
  Simulator__init__ (Data:=Data) kernel data handlers p loglevel w = (Ok tt, s) →
  sim__params (st_sim s)
    = _ParamsDict__init__ (Some (match p with None => ∅ | Some b => b end)) ∧
  (kernel = Kernel__init__ → model_of_run data handlers p loglevel w (st_sim s)).
Proof.
  unfold Simulator__init__, model_of_run. intros Hs.
  destruct data as [ctor|create|ctor|d].
  - pose proof (exec_same_context (ctor
        {| sim__handlers := HandlersDict__init__ handlers;
           sim__kernel := kernel;
           sim__params := _ParamsDict__init__
                            (Some (match p with None => ∅ | Some b => b end));
           sim__logger_level := match loglevel with Some l => l | None => INFO end;
           sim__data := None |} w)
        {| sim__handlers := HandlersDict__init__ handlers;
           sim__kernel := kernel;
           sim__params := _ParamsDict__init__
                            (Some (match p with None => ∅ | Some b => b end));
           sim__logger_level := match loglevel with Some l => l | None => INFO end;
           sim__data := None |} []) as (_ & Hp & _).
    destruct (exec _ _ _) as [[d|ex] s1] eqn:He; simplify_eq. simpl in *.
    split; [done|]. intros ->. by eauto.
  - destruct (create _ w) as [[d|ex] w1] eqn:He; simplify_eq. simpl.
    split; [done|]. intros _. by eauto.
  - destruct (ctor _ w) as [[d|ex] w1] eqn:He; simplify_eq. simpl.
    split; [done|]. intros _. by eauto.
  - simplify_eq. by simpl.
Qed.

Lemma simulate_one_facts fuel data init fin handlers p stime_limit loglevel
    (w w' : W) r :
  simulate body has_initialize fuel data init fin handlers (ParamsOne p)
           stime_limit loglevel w = (Finished r, w') →
  ∃ sim, r = OneSim sim ∧
    sim__params sim
      = _ParamsDict__init__ (Some (match p with None => ∅ | Some b => b end)) ∧
    on_new_kernel fuel data init fin handlers p stime_limit loglevel w sim ∧
    model_of_run data handlers p loglevel w sim.
Proof.
  unfold simulate. intros Hs.
  destruct (Simulator__init__ _ data handlers p loglevel w) as [[[]|ex] s] eqn:Hi;
    [|done].
  destruct (Simulator_init_facts _ _ _ _ _ _ _ Hi) as [Hp Hm].
  specialize (Hm eq_refl).
  match type of Hs with
  | context [run _ _ _ _ _ ?s0] =>
      pose proof (run_same_context fuel init fin s0) as (_ & Hp' & _ & Hd');
      destruct (run body has_initialize fuel init fin s0) as [[[]|?|] s'] eqn:Hr
  end; simplify_eq.
  eexists. split; [done|]. simpl in *. split; [congruence|].
  split; [by exists s, s'|].
  unfold model_of_run in *.
  destruct data; simpl in *;
    repeat match goal with
           | X : ∃ _, _ |- _ => destruct X as [? X]
           | X : _ ∧ _ |- _ => destruct X
           end; try (do 2 eexists; split; [done|]); congruence.
Qed.


Lemma simulate_for_spec fuel data init fin handlers stime_limit loglevel
    bags results (w w' : W) out :
  simulate_for body has_initialize fuel data init fin handlers bags
               (match stime_limit with Some l => l | None => 0 end)
               loglevel results w = (Finished out, w') ↔
  ∃ sims, out = results ++ sims ∧
          run_in_turn fuel data init fin handlers stime_limit loglevel
                      bags sims w w'.
Proof.
  revert results w. induction bags as [|bag bags IH]; intros results w.
  - simpl. split.
    + intros [= <- <-]. exists []. by rewrite app_nil_r.
    + intros (sims & -> & Hr). destruct sims; [|done]. simpl in Hr.
      by rewrite app_nil_r, Hr.
  - simpl.
    destruct (Simulator__init__ Kernel__init__ data handlers (Some bag)
                                loglevel w) as [[[]|ex] s] eqn:Hi.
    2:{ split; [done|]. intros (sims & _ & Hr). destruct sims; [done|].
        by destruct Hr as (? & ? & _). }
    match goal with
    | |- context [run _ _ _ _ _ ?s0] =>
        destruct (run body has_initialize fuel init fin s0) as [[?|?|] s'] eqn:Hr
    end.
    + rewrite IH. split.
      * intros (sims & -> & Hrest). exists (st_sim s' :: sims).
        rewrite <- app_assoc. split; [done|]. by exists (st_world s').
      * intros (sims & -> & Hrest). destruct sims as [|sim sims]; [done|].
        destruct Hrest as (w1 & [= <- <-] & Hrest). exists sims.
        by rewrite <- app_assoc.
    + split; [done|]. intros (sims & _ & Hrest). destruct sims; [done|].
      by destruct Hrest as (? & ? & _).
    + split; [done|]. intros (sims & _ & Hrest). destruct sims; [done|].
      by destruct Hrest as (? & ? & _).
Qed.

Lemma run_in_turn_facts fuel data init fin handlers stime_limit loglevel
    bags sims (w w' : W) :
  run_in_turn fuel data init fin handlers stime_limit loglevel bags sims w w' →
  length sims = length bags ∧
  (∀ i bag sim, bags !! i = Some bag → sims !! i = Some sim →
     sim__params sim = _ParamsDict__init__ (Some bag) ∧
     ∃ wi, on_new_kernel fuel data init fin handlers (Some bag) stime_limit
                         loglevel wi sim ∧
           model_of_run data handlers (Some bag) loglevel wi sim) ∧
  (∀ d, data = NotAClass d → ∀ sim, sim ∈ sims → sim__data sim = Some d).
Proof.
  revert sims w. induction bags as [|bag bags IH]; intros [|sim sims] w Hr;
    try done.
  - split_and!; [done|by intros [] | intros ? _ ? Hx; by apply elem_of_nil in Hx].
  - destruct Hr as (w1 & Hone & Hrest).
    destruct (IH _ _ Hrest) as (Hlen & Hpar & Hsh).
    destruct (simulate_one_facts _ _ _ _ _ _ _ _ _ _ _ Hone)
      as (sim' & [= <-] & Hp & Hk & Hm).
    split_and!.
    + simpl. by rewrite Hlen.
    + intros [|i] b x Hb Hx; simpl in *; simplify_eq; [|by eapply Hpar].
      split; [done|]. by exists w.
    + intros d -> x Hx. apply elem_of_cons in Hx as [->|Hx]; [done|].
      by eapply Hsh.
Qed.

(** C9, amended.  With a list of parameter dicts [simulate] returns a list
    of simulators, one per dict and in the order of the dicts, each being
    what a single call with that dict returns; with anything else it
    returns one simulator.  Every run gets a new kernel and a new
    simulator.  It gets a new model when [data] is a class (the class is
    called once per run); when [data] is an object, that same object is the
    model of every run. *)
Theorem C9_simulate fuel (data : protodata (V:=V) (Fn:=Fn) (W:=W) (Data:=Data))
    init fin handlers stime_limit loglevel (w : W) :
  (∀ p r w',
     simulate body has_initialize fuel data init fin handlers (ParamsOne p)
              stime_limit loglevel w = (Finished r, w') →
     ∃ sim, r = OneSim sim ∧
       sim__params sim
         = _ParamsDict__init__
             (Some (match p with None => ∅ | Some b => b end)) ∧
       on_new_kernel fuel data init fin handlers p stime_limit loglevel w sim ∧
       model_of_run data handlers p loglevel w sim) ∧
  (∀ bags r w',
     simulate body has_initialize fuel data init fin handlers (ParamsList bags)
              stime_limit loglevel w = (Finished r, w') →
     ∃ sims, r = SimList sims ∧
       length sims = length bags ∧
       run_in_turn fuel data init fin handlers stime_limit loglevel
                   bags sims w w' ∧
       (∀ i bag sim, bags !! i = Some bag → sims !! i = Some sim →
          sim__params sim = _ParamsDict__init__ (Some bag) ∧
          ∃ wi, on_new_kernel fuel data init fin handlers (Some bag)
                              stime_limit loglevel wi sim ∧
                model_of_run data handlers (Some bag) loglevel wi sim) ∧
       (∀ d, data = NotAClass d → ∀ sim, sim ∈ sims → sim__data sim = Some d)) ∧
  (∀ bags sims w',
     run_in_turn fuel data init fin handlers stime_limit loglevel
                 bags sims w w' →
     simulate body has_initialize fuel data init fin handlers (ParamsList bags)
              stime_limit loglevel w = (Finished (SimList sims), w')).
Proof.
  split_and!.
  - intros p r w'. apply simulate_one_facts.
  - intros bags r w' Hs. unfold simulate in Hs.
    destruct (simulate_for _ _ _ _ _ _ _ _ _ _ _ _) as [[out|ex|] w1] eqn:Hf;
      simplify_eq.
    apply simulate_for_spec in Hf as (sims & -> & Hr).
    exists sims. destruct (run_in_turn_facts _ _ _ _ _ _ _ _ _ _ _ Hr)
      as (Hl & Hp & Hd).
    by split_and!.
  - intros bags sims w' Hr. unfold simulate.
    assert (Hf : simulate_for body has_initialize fuel data init fin handlers
                   bags (match stime_limit with Some l => l | None => 0 end)
                   loglevel [] w = (Finished sims, w')).
    { apply simulate_for_spec. by exists sims. }
    by rewrite Hf.
Qed.


(** * Further properties of the kernel *)

(** ** The order on events *)

(** X1. [__lt__] and [__eq__] make a strict total order of the events: of
    [a < b], [a == b] and [b < a] exactly one holds, [<] is transitive, and
    [==] says that time and id agree. *)
Theorem event_order_strict_total (a b c : @_Event V Fn) :
  ((event_lt a b = true ∧ event_eq a b = false ∧ event_lt b a = false) ∨
   (event_lt a b = false ∧ event_eq a b = true ∧ event_lt b a = false) ∨
   (event_lt a b = false ∧ event_eq a b = false ∧ event_lt b a = true)) ∧
  (event_lt a b = true → event_lt b c = true → event_lt a c = true) ∧
  (event_eq a b = true ↔ ev_stime a = ev_stime b ∧ ev_id a = ev_id b).
Proof.
  split_and!.
  - unfold event_lt, event_eq.
    destruct (Z.ltb_spec (ev_stime a) (ev_stime b)),
             (Z.ltb_spec (ev_stime b) (ev_stime a)),
             (Z.eqb_spec (ev_stime a) (ev_stime b)),
             (Z.eqb_spec (ev_stime b) (ev_stime a)),
             (Nat.ltb_spec (ev_id a) (ev_id b)),
             (Nat.ltb_spec (ev_id b) (ev_id a)),
             (Nat.eqb_spec (ev_id a) (ev_id b)); simpl; try lia; tauto.
  - apply event_lt_trans.
  - unfold event_eq. by rewrite andb_true_iff, Z.eqb_eq, Nat.eqb_eq.
Qed.

(** ** The queue's accounts *)

Lemma wf_size_evids k :
  wf k → __queue_size k = Z.of_nat (size (__evids k)).
Proof.
  intros Hk. rewrite (wf_size _ Hk). f_equal.
  set (l := filter (λ e, ev_id e ∉ removed_flags k) (__queue k)).
  assert (Hnd : NoDup (ev_id <$> l)).
  { eapply sublist_NoDup; [apply (wf_nodup _ Hk)|].
    apply fmap_sublist, sublist_filter. }
  rewrite <- (length_fmap ev_id l), <- (size_list_to_set (C:=gset nat)) by done.
  rewrite <- (size_dom (D:=gset nat)). f_equal. apply set_eq. intros i.
  rewrite elem_of_dom, elem_of_list_to_set, list_elem_of_fmap. split.
  - intros (e & -> & He). apply list_elem_of_filter in He as [Hl He].
    exists e. by apply (wf_evids _ Hk).
  - intros [e He]. apply (wf_evids _ Hk) in He as (He & Hid & Hl).
    exists e. split; [done|]. by apply list_elem_of_filter.
Qed.

Lemma wf_empty k : wf k → (empty k = true ↔ __evids k = ∅).
Proof.
  intros Hk. unfold empty. rewrite Z.eqb_eq, (wf_size_evids _ Hk).
  rewrite <- map_size_empty_iff. lia.
Qed.

(** X2. Whatever a run does, it keeps the accounts of the queue: at the end
    [__queue_size] is the number of ids in the id table and the number of
    events of the heap that are not cancelled, the ids of the table are
    exactly those of these events, and the kernel is [empty] exactly when
    the id table is. *)
Theorem run_keeps_queue_accounts fuel init fin
    (s : State (V:=V) (Fn:=Fn) (W:=W) (Data:=Data)) :
  wf (kernel_of s) →
  let k := kernel_of (run body has_initialize fuel init fin s).2 in
  __queue_size k = Z.of_nat (size (__evids k)) ∧
  __queue_size k
    = Z.of_nat (length (filter (λ e, ev_id e ∉ removed_flags k) (__queue k))) ∧
  (∀ i e, __evids k !! i = Some e ↔
          e ∈ __queue k ∧ ev_id e = i ∧ ev_id e ∉ removed_flags k) ∧
  (empty k = true ↔ __evids k = ∅) ∧
  NoDup (ev_id <$> __queue k).
Proof.
  intros Hk k.
  assert (Hk' : wf k).
  { apply (run_invariant _ wf_step_invariant fuel init fin s Hk). }
  split_and!.
  - by apply wf_size_evids.
  - apply Hk'.
  - apply Hk'.
  - by apply wf_empty.
  - apply Hk'.
Qed.

(** ** _next_event *)

(** X4. On a well-formed kernel [_next_event] raises, KeyError, exactly
    when the kernel is [empty], and then no event of the heap is live.
    Otherwise it returns the live event that is least in the order of
    [__lt__], sets the clock to its fire-time, takes its id out of the id
    table and one off the size; neither the IndexError of [heappop], the
    assertion nor the KeyError of [del] is reached. *)
Theorem next_event_least_live k :
  wf k →
  match _next_event k with
  | (Ok e, k') =>
      empty k = false ∧ e ∈ __queue k ∧ live k e ∧
      (∀ x, x ∈ __queue k → live k x → x ≠ e → event_lt e x = true) ∧
      (∀ x, x ∈ __queue k' → x ∈ __queue k) ∧
      __stime k ≤ ev_stime e ∧ __stime k' = ev_stime e ∧
      __evids k' = delete (ev_id e) (__evids k) ∧
      __queue_size k' = __queue_size k - 1 ∧ wf k'
  | (Raise ex, k') =>
      ex = KeyError "pop from empty queue" ∧ empty k = true ∧
      (∀ x, x ∈ __queue k → ¬ live k x) ∧
      __evids k' = __evids k ∧ __stime k' = __stime k ∧ wf k'
  end.
Proof.
  intros Hk. pose proof (next_event_spec k Hk) as Hs.
  destruct (_next_event k) as [[e|ex] k'] eqn:Hpop.
  - destruct Hs. split_and!; try done.
    + destruct (empty k) eqn:He; [|done].
      apply (wf_empty _ Hk) in He. rewrite He in pop_index0.
      by rewrite lookup_empty in pop_index0.
    + intros x Hx Hl Hne. destruct (pop_keeps0 x Hx Hl) as [->|Hx']; [done|].
      by apply pop_rest0.
    + intros x Hx. by apply pop_rest0.
    + by apply (wf_bound _ Hk).
  - destruct Hs as [-> []]. split_and!; try done.
    destruct (empty k) eqn:He; [done|].
    destruct (next_event_returns k Hk He) as (e & k1 & Hp & _). congruence.
Qed.

(** ** schedule, then cancel *)

(** X7. On a well-formed kernel, cancelling the id that [schedule] has
    just returned gives the event back and undoes the call as far as the
    id table, the size, the clock and the counter of events go; the heap is
    not touched by the cancel and still holds the event, now flagged; the
    id is not handed out again. *)
Theorem schedule_then_cancel k delay handler args kwargs :
  wf k → 0 ≤ delay →
  ∃ k1 k2,
    add_event k delay handler args kwargs = (Ok (__next_evid k), k1) ∧
    remove_event k1 (__next_evid k)
      = (Ok (Some (new_event k delay handler args kwargs)), k2) ∧
    __evids k2 = __evids k ∧ __queue_size k2 = __queue_size k ∧
    __stime k2 = __stime k ∧ __num_events k2 = __num_events k ∧
    __queue k2 = __queue k1 ∧
    new_event k delay handler args kwargs ∈ __queue k2 ∧
    removed k2 (new_event k delay handler args kwargs) = true ∧
    __next_evid k2 = S (__next_evid k) ∧
    remove_event k2 (__next_evid k) = (Ok None, k2) ∧
    wf k2.
Proof.
  intros Hk Hd.
  pose proof (wf_add_event k delay handler args kwargs Hk) as Hk1.
  rewrite add_event_accepts in * by done. simpl in Hk1.
  set (ev := new_event k delay handler args kwargs) in *.
  set (k1 := mkKernel _ _ _ _ _ _ _ _) in *.
  assert (Hlk : __evids k1 !! __next_evid k = Some ev).
  { simpl. by rewrite lookup_insert_eq. }
  assert (Hl : live k1 ev).
  { unfold live. simpl. set_solver. }
  pose proof (wf_remove_event k1 (__next_evid k) Hk1) as Hk2.
  rewrite (remove_event_present k1 _ ev Hlk Hl) in *. simpl in Hk2.
  assert (Hfresh : __evids k !! __next_evid k = None).
  { destruct (__evids k !! __next_evid k) as [x|] eqn:Hx; [|done].
    apply (wf_evids _ Hk) in Hx as (Hx & Hid & _).
    apply (wf_bound _ Hk) in Hx. lia. }
  exists k1. eexists. split; [reflexivity|].
  split; [apply (remove_event_present k1 _ ev Hlk Hl)|]. simpl.
  split_and!; try done.
  - by apply delete_insert_id.
  - lia.
  - rewrite heappush_perm. by left.
  - unfold removed. simpl. apply bool_decide_eq_true. set_solver.
  - apply remove_event_absent. simpl. by rewrite lookup_delete_eq.
Qed.


(** ** What a run leaves alone, and the clock *)

(** The stop predicates stay, and the two counters only grow. *)
Definition steady_inv (preds : list Z) (n0 m0 : nat) k log : Prop :=
  __stop_predicates k = preds ∧ (n0 ≤ __next_evid k)%nat ∧
  (m0 ≤ __num_events k)%nat.

Lemma steady_step_invariant preds n0 m0 :
  step_invariant (steady_inv preds n0 m0).
Proof.
  unfold steady_inv. split.
  - intros k log d h a kw _ (Hp & Hn & Hm).
    destruct (add_event_frame k d h a kw) as (_ & F2 & F3 & F4).
    rewrite F2, F3. split_and!; [done|lia|done].
  - intros k log evid (Hp & Hn & Hm).
    destruct (remove_event_frame k evid) as (_ & F2 & F3 & F4 & _).
    by rewrite F2, F3, F4.
  - intros k log e k1 (Hp & Hn & Hm) Hpop.
    destruct (next_event_frame _ _ _ Hpop) as (_ & F2 & F3 & F4 & _).
    unfold num_events in F2. by rewrite F2, F3, F4.
  - intros k log ex k1 (Hp & Hn & Hm) Hpop. unfold _next_event in Hpop.
    destruct (next_event_loop_frame (length (__queue k)) k)
      as (F1 & F2 & F3 & _).
    rewrite Hpop in F1, F2, F3. simpl in *. by rewrite F1, F2, F3.
  - done.
  - intros k log (Hp & Hn & Hm). simpl. split_and!; [done..|lia].
  - done.
Qed.

(** X10. User code that reaches the kernel through [schedule] and
    [cancel] cannot lift or move the time limit: whatever the hooks and the
    handlers schedule and cancel, at the end of a run the kernel's stop
    predicates are those it started with.  Nor do the two counters go
    back: no id is handed out twice and [num_events] only grows. *)
Theorem run_keeps_stop_predicates fuel init fin
    (s : State (V:=V) (Fn:=Fn) (W:=W) (Data:=Data)) :
  __stop_predicates (kernel_of (run body has_initialize fuel init fin s).2)
    = __stop_predicates (kernel_of s) ∧
  (__next_evid (kernel_of s)
     ≤ __next_evid (kernel_of (run body has_initialize fuel init fin s).2))%nat ∧
  (__num_events (kernel_of s)
     ≤ __num_events (kernel_of (run body has_initialize fuel init fin s).2))%nat.
Proof.
  destruct (run_invariant _
              (steady_step_invariant (__stop_predicates (kernel_of s))
                 (__next_evid (kernel_of s)) (__num_events (kernel_of s)))
              fuel init fin s) as (S1 & S2 & S3).
  { by unfold steady_inv. }
  by split_and!.
Qed.

(** The clock never goes back, and every event popped was due between the
    start of the run and now. *)
Definition clock_inv (t0 : Z) k log : Prop :=
  wf k ∧ t0 ≤ __stime k ∧
  ∀ e, e ∈ pops log → t0 ≤ ev_stime e ∧ ev_stime e ≤ __stime k.

Lemma clock_step_invariant t0 : step_invariant (clock_inv t0).
Proof.
  unfold clock_inv. split.
  - intros k log d h a kw Hd (Hk & Ht & Hp).
    pose proof (wf_add_event k d h a kw Hk) as Hk'.
    rewrite add_event_accepts in * by done.
    rewrite pops_snoc, app_nil_r. by split_and!.
  - intros k log evid (Hk & Ht & Hp).
    pose proof (wf_remove_event k evid Hk) as Hk'.
    destruct (remove_event_frame k evid) as (F1 & _).
    rewrite pops_snoc, app_nil_r, F1. by split_and!.
  - intros k log e k1 (Hk & Ht & Hp) Hpop.
    pose proof (next_event_spec k Hk) as Hs. rewrite Hpop in Hs. destruct Hs.
    destruct (wf_bound _ Hk e pop_elem0) as [_ Hle].
    rewrite pops_snoc, pop_stime0. split_and!; [done|lia|].
    intros x Hx. apply elem_of_app in Hx as [Hx|Hx].
    + destruct (Hp x Hx). lia.
    + apply list_elem_of_singleton in Hx as ->. lia.
  - intros k log ex k1 (Hk & Ht & Hp) Hpop.
    pose proof (next_event_spec k Hk) as Hs. rewrite Hpop in Hs.
    destruct Hs as [_ []]. rewrite dr_stime0. by split_and!.
  - intros k log e (Hk & Ht & Hp). rewrite pops_snoc, app_nil_r. by split_and!.
  - intros k log (Hk & Ht & Hp). split_and!; [by destruct Hk|done..].
  - intros k log m Hm (Hk & Ht & Hp). rewrite pops_snoc.
    destruct Hm as [->|[->| ->]]; rewrite app_nil_r; by split_and!.
Qed.

(** X3. In a run started on a well-formed kernel the clock never goes
    back: it ends no earlier than it started, every event popped was due
    between the two, and every event left in the heap is due no earlier
    than the clock shows at the end. *)
Theorem run_clock_monotone fuel init fin
    (s : State (V:=V) (Fn:=Fn) (W:=W) (Data:=Data)) :
  wf (kernel_of s) → st_log s = [] →
  let s' := (run body has_initialize fuel init fin s).2 in
  stime (kernel_of s) ≤ stime (kernel_of s') ∧
  (∀ e, e ∈ pops (st_log s') →
        stime (kernel_of s) ≤ ev_stime e ∧ ev_stime e ≤ stime (kernel_of s')) ∧
  (∀ x, x ∈ __queue (kernel_of s') → stime (kernel_of s') ≤ ev_stime x).
Proof.
  intros Hk Hlog s'.
  destruct (run_invariant _ (clock_step_invariant (__stime (kernel_of s)))
              fuel init fin s) as (Hk' & Ht & Hp).
  { unfold clock_inv. rewrite Hlog. split_and!; [done|lia|].
    intros e He. by apply elem_of_nil in He. }
  unfold stime. split_and!; [done..|].
  intros x Hx. by apply (wf_bound _ Hk').
Qed.

(** ** How the loop ends *)

Lemma run_loop_finished fuel (s s' : State (V:=V) (Fn:=Fn) (W:=W) (Data:=Data)) :
  run_loop body fuel s = (Finished tt, s') →
  empty (kernel_of s') = true ∨ _test_stop (kernel_of s') = true.
Proof.
  revert s. induction fuel as [|fuel IH]; intros s; simpl.
  - destruct (empty (kernel_of s)) eqn:He; [|done]. intros [= <-]. by left.
  - destruct (empty (kernel_of s)) eqn:He. { intros [= <-]. by left. }
    destruct (_next_event (kernel_of s)) as [[e|ex] k1]; [|done].
    destruct (_test_stop k1) eqn:Hstop; simpl.
    { intros [= <-]. by right. }
    destruct (ev_fn e) as [fn|]; [|apply IH].
    destruct (exec _ _ _) as [[r|ex] s2]; [apply IH|done].
Qed.

(** X6. When the dispatch loop ends normally, the kernel is [empty] or a
    stop predicate holds.  So on a kernel without stop predicates (no time
    limit, or a limit of zero) the loop ends only when no live event is
    left: from a well-formed kernel, with an empty id table. *)
Theorem loop_ends_empty_or_stopped fuel
    (s s' : State (V:=V) (Fn:=Fn) (W:=W) (Data:=Data)) :
  run_loop body fuel s = (Finished tt, s') →
  (empty (kernel_of s') = true ∨ _test_stop (kernel_of s') = true) ∧
  (__stop_predicates (kernel_of s) = [] →
     empty (kernel_of s') = true ∧
     (wf (kernel_of s) →
        __evids (kernel_of s') = ∅ ∧
        ∀ x, x ∈ __queue (kernel_of s') → removed (kernel_of s') x = true)).
Proof.
  intros Hrun. pose proof (run_loop_finished _ _ _ Hrun) as Hend.
  split; [done|]. intros Hnil.
  destruct (run_loop_invariant _
              (steady_step_invariant (__stop_predicates (kernel_of s)) 0 0)
              fuel s) as (Hp & _).
  { unfold steady_inv. split_and!; [done|lia..]. }
  rewrite Hrun in Hp. simpl in Hp.
  assert (He : empty (kernel_of s') = true).
  { destruct Hend as [?|Hstop]; [done|].
    unfold _test_stop in Hstop. by rewrite Hp, Hnil in Hstop. }
  split; [done|]. intros Hk.
  pose proof (run_loop_invariant _ wf_step_invariant fuel s Hk) as Hk'.
  rewrite Hrun in Hk'. simpl in Hk'.
  pose proof (proj1 (wf_empty _ Hk') He) as Hev. split; [done|].
  intros x Hx. apply removed_true. intros Hl.
  assert (Hin : __evids (kernel_of s') !! ev_id x = Some x)
    by (by apply (wf_evids _ Hk')).
  by rewrite Hev, lookup_empty in Hin.
Qed.

(** An exception that some call of user code raises. *)
Definition raised_by_user_code (ex : exn) : Prop :=
  ∃ fn sim args kwargs (w : W) sim' log,
    (exec (body fn sim args kwargs w) sim' log).1 = Raise ex.

Lemma call_hook_raised hook m
    (s : State (V:=V) (Fn:=Fn) (W:=W) (Data:=Data)) ex :
  (call_hook body hook m s).1 = Raise ex → raised_by_user_code ex.
Proof.
  destruct hook as [fn|]; simpl; [|done]. intros Hex.
  by exists fn, (st_sim s), [], [], (st_world s), (st_sim s), (st_log s ++ [m]).
Qed.

Lemma run_loop_raised fuel (s : State (V:=V) (Fn:=Fn) (W:=W) (Data:=Data)) ex :
  wf (kernel_of s) → (run_loop body fuel s).1 = Raised ex →
  raised_by_user_code ex.
Proof.
  revert s. induction fuel as [|fuel IH]; intros s Hk; simpl.
  - by destruct (empty (kernel_of s)).
  - destruct (empty (kernel_of s)) eqn:He; [done|].
    destruct (next_event_returns _ Hk He) as (e & k1 & -> & Hpop).
    destruct (negb (_test_stop k1)); [|done].
    destruct (ev_fn e) as [fn|].
    + set (sim1 := set_kernel k1 (st_sim s)).
      pose proof (exec_invariant _ wf_step_invariant
        (body fn sim1 (ev_args e) (ev_kwargs e) (st_world s)) sim1
        ((st_log s ++ [OPop e]) ++ [OCall e]) (pop_wf _ _ _ Hpop)) as Hk2.
      destruct (exec _ _ _) as [[r'|ex'] s2] eqn:Hexec.
      * apply IH. simpl. by destruct Hk2.
      * simpl. intros [= ->].
        exists fn, sim1, (ev_args e), (ev_kwargs e), (st_world s), sim1,
          ((st_log s ++ [OPop e]) ++ [OCall e]).
        by rewrite Hexec.
    + apply IH. simpl. apply Hpop.
Qed.

(** X5. [_next_event] never raises when [run] calls it.  In a run started
    on a well-formed kernel, an exception that ends the run is one that the
    call of a hook or of a handler raised: the KeyError of an empty queue,
    the assertion on the clock and the KeyError of [del] in [_next_event]
    are not reached from [run].  (The handlers are functions and bound
    methods, as everywhere here: they carry the [__name__] that the trace
    line before the call reads.) *)
Theorem run_errors_are_raised_by_calls fuel init fin
    (s : State (V:=V) (Fn:=Fn) (W:=W) (Data:=Data)) :
  wf (kernel_of s) →
  ∀ ex, (run body has_initialize fuel init fin s).1 = Raised ex →
        raised_by_user_code ex.
Proof.
  intros Hk ex. unfold run.
  set (h0 := data_initialize has_initialize (st_sim s)).
  pose proof (call_hook_invariant _ wf_step_invariant h0 OInitialize s
                (or_introl eq_refl) Hk) as Hk1.
  pose proof (call_hook_raised h0 OInitialize s) as Hr1.
  destruct (call_hook body h0 OInitialize s) as [[?|ex1] s1]; simpl in *;
    [|intros [= ->]; by apply Hr1].
  pose proof (call_hook_invariant _ wf_step_invariant init OInit s1
                (or_intror (or_introl eq_refl)) Hk1) as Hk2.
  pose proof (call_hook_raised init OInit s1) as Hr2.
  destruct (call_hook body init OInit s1) as [[?|ex2] s2]; simpl in *;
    [|intros [= ->]; by apply Hr2].
  pose proof (run_loop_raised fuel s2 ex Hk2) as Hloop.
  destruct (run_loop body fuel s2) as [[?|ex'|] s3]; simpl in *.
  - pose proof (call_hook_raised fin OFin s3) as Hr3.
    destruct (call_hook body fin OFin s3) as [[?|ex3] s4]; simpl in *;
      [done|intros [= ->]; by apply Hr3].
  - done.
  - done.
Qed.


(** User code that schedules nothing. *)
Inductive quiet {R : Type} : prog (V:=V) (Fn:=Fn) (W:=W) R → Prop :=
| quiet_Return r w : quiet (Return r w)
| quiet_Throw ex w : quiet (Throw ex w)
| quiet_Cancel evid rest : (∀ r, quiet (rest r)) → quiet (Cancel evid rest).

Lemma remove_event_size k evid :
  __queue_size (remove_event k evid).2 ≤ __queue_size k.
Proof.
  unfold remove_event, dict_del.
  destruct (__evids k !! evid); [|done]. destruct (negb _); simpl; lia.
Qed.

Lemma exec_quiet_size {R} (p : prog R) sim log :
  quiet p →
  __queue_size (kernel_of (exec (W:=W) p sim log).2)
    ≤ __queue_size (sim__kernel sim).
Proof.
  intros Hq. revert sim log.
  induction Hq as [r w|ex w|evid rest _ IH]; intros sim log; simpl; try done.
  unfold Simulator_cancel.
  pose proof (remove_event_size (sim__kernel sim) evid) as Hle.
  destruct (remove_event (sim__kernel sim) evid) as [r k'].
  specialize (IH (match r with Ok _ => Ok () | Raise e => Raise e end)
                 (set_kernel k' sim) (log ++ [OCancel evid])).
  simpl in *. lia.
Qed.

(** X8. When the handlers schedule nothing, the dispatch loop comes to an
    end within as many turns as there are live events: started on a
    well-formed kernel with at least [__queue_size] turns allowed, it does
    not run out of them. *)
Theorem loop_ends_when_nothing_is_scheduled fuel
    (s : State (V:=V) (Fn:=Fn) (W:=W) (Data:=Data)) :
  (∀ fn sim args kwargs w, quiet (body fn sim args kwargs w)) →
  wf (kernel_of s) →
  __queue_size (kernel_of s) ≤ Z.of_nat fuel →
  (run_loop body fuel s).1 ≠ OutOfFuel.
Proof.
  intros Hq. revert s. induction fuel as [|fuel IH]; intros s Hk Hf; simpl.
  - destruct (empty (kernel_of s)) eqn:He; [done|].
    unfold empty in He. apply Z.eqb_neq in He.
    pose proof (wf_size _ Hk). lia.
  - destruct (empty (kernel_of s)) eqn:He; [done|].
    destruct (next_event_returns _ Hk He) as (e & k1 & -> & Hpop).
    pose proof (pop_queue_size _ _ _ Hpop) as Hsz.
    destruct (negb (_test_stop k1)); [|done].
    destruct (ev_fn e) as [fn|].
    + set (sim1 := set_kernel k1 (st_sim s)).
      pose proof (exec_invariant _ wf_step_invariant
        (body fn sim1 (ev_args e) (ev_kwargs e) (st_world s)) sim1
        ((st_log s ++ [OPop e]) ++ [OCall e]) (pop_wf _ _ _ Hpop)) as Hk2.
      pose proof (exec_quiet_size
        (body fn sim1 (ev_args e) (ev_kwargs e) (st_world s)) sim1
        ((st_log s ++ [OPop e]) ++ [OCall e]) (Hq _ _ _ _ _)) as Hle.
      destruct (exec _ _ _) as [[r'|ex'] s2]; [|done].
      apply IH; simpl in *; [by destruct Hk2|].
      unfold kernel_of in *. simpl in *. lia.
    + apply IH; simpl; [apply Hpop|].
      unfold kernel_of in *. simpl in *. lia.
Qed.


(** ** The order of the hooks *)

(** What the dispatch loop logs: pops, calls and what user code does. *)
Definition is_loop_obs (o : @obs V Fn) : Prop :=
  match o with
  | OInitialize | OInit | OFin => False
  | _ => True
  end.

Lemma is_api_loop_obs (l : list (@obs V Fn)) :
  Forall is_api l → Forall is_loop_obs l.
Proof. intros Hl. eapply Forall_impl; [exact Hl|]. by intros []. Qed.

Lemma run_loop_log_shape fuel (s : State (V:=V) (Fn:=Fn) (W:=W) (Data:=Data)) :
  ∃ new, st_log (run_loop body fuel s).2 = st_log s ++ new ∧
         Forall is_loop_obs new.
Proof.
  revert s. induction fuel as [|fuel IH]; intros s; simpl.
  { exists []. rewrite app_nil_r. by destruct (empty (kernel_of s)). }
  destruct (empty (kernel_of s)).
  { exists []. by rewrite app_nil_r. }
  destruct (_next_event (kernel_of s)) as [[e|ex] k1]; simpl.
  2:{ exists []. by rewrite app_nil_r. }
  destruct (negb (_test_stop k1)).
  2:{ exists [OPop e]. split; [done|]. by repeat constructor. }
  destruct (ev_fn e) as [fn|].
  - set (sim1 := set_kernel k1 (st_sim s)).
    destruct (exec_framed
                (body fn sim1 (ev_args e) (ev_kwargs e) (st_world s))
                sim1 ((st_log s ++ [OPop e]) ++ [OCall e]))
      as [_ _ _ _ _ _ _ _ (new & Hlog & Hapi)].
    apply is_api_loop_obs in Hapi.
    destruct (exec _ _ _) as [[r|ex] s2]; simpl in *.
    + destruct (IH (mkState (bump_num_events (st_sim s2)) (st_world s2)
                            (st_log s2))) as (new' & L1 & L2).
      simpl in L1. exists ([OPop e; OCall e] ++ new ++ new').
      split; [rewrite L1, Hlog; by rewrite <- !app_assoc|].
      repeat (apply Forall_app; split); try done. by repeat constructor.
    + exists ([OPop e; OCall e] ++ new).
      split; [rewrite Hlog; by rewrite <- !app_assoc|].
      apply Forall_app. split; [by repeat constructor|done].
  - destruct (IH (mkState (set_kernel k1 (st_sim s)) (st_world s)
                          (st_log s ++ [OPop e]))) as (new' & L1 & L2).
    simpl in L1. exists ([OPop e] ++ new').
    split; [rewrite L1; by rewrite <- !app_assoc|].
    apply Forall_app. split; [by repeat constructor|done].
Qed.

(** The part of the log that one hook writes: nothing when there is no
    hook, else its mark followed by the calls it made. *)
Definition hook_part (m : @obs V Fn) (hook : option Fn)
    (part : list (@obs V Fn)) : Prop :=
  (hook = None ∧ part = []) ∨
  (is_Some hook ∧ ∃ api, part = m :: api ∧ Forall is_api api).

Lemma call_hook_part hook m (s : State (V:=V) (Fn:=Fn) (W:=W) (Data:=Data)) :
  ∃ part, st_log (call_hook body hook m s).2 = st_log s ++ part ∧
          hook_part m hook part.
Proof.
  destruct (call_hook_framed hook m s) as (new & Hfr & Hnew).
  destruct Hfr as [_ _ _ _ _ _ _ _ (api & Hlog & Hapi)].
  destruct Hnew as [[-> ->]|[-> Hsome]].
  - unfold call_hook in *. simpl in *. exists []. split; [by rewrite app_nil_r|].
    by left.
  - exists (m :: api). split; [by rewrite Hlog, <- app_assoc|].
    right. by eauto.
Qed.

(** X9. The hooks of [run] come in order around the dispatch loop: what a
    run adds to the log is the part of [initialize], then the part of
    [init], then what the loop logs, then the part of [fin]; a later part
    is missing only when the run ended before it.  So [init] runs before
    any event is popped and [fin] after the last one, and a hook is never
    logged as a dispatched event. *)
Theorem run_hooks_in_order fuel init fin
    (s : State (V:=V) (Fn:=Fn) (W:=W) (Data:=Data)) :
  ∃ A B L F,
    st_log (run body has_initialize fuel init fin s).2
      = st_log s ++ A ++ B ++ L ++ F ∧
    hook_part OInitialize (data_initialize has_initialize (st_sim s)) A ∧
    (B = [] ∨ hook_part OInit init B) ∧
    Forall is_loop_obs L ∧
    (F = [] ∨ hook_part OFin fin F) ∧
    ((run body has_initialize fuel init fin s).1 = Finished tt →
       hook_part OInit init B ∧ hook_part OFin fin F).
Proof.
  unfold run.
  set (h0 := data_initialize has_initialize (st_sim s)).
  destruct (call_hook_part h0 OInitialize s) as (A & HA & PA).
  destruct (call_hook body h0 OInitialize s) as [[?|ex] s1]; simpl in *.
  2:{ exists A, [], [], []. rewrite !app_nil_r. split_and!; by eauto. }
  destruct (call_hook_part init OInit s1) as (B & HB & PB).
  destruct (call_hook body init OInit s1) as [[?|ex] s2]; simpl in *.
  2:{ exists A, B, [], []. rewrite !app_nil_r, HB, HA, <- app_assoc.
      split_and!; by eauto. }
  destruct (run_loop_log_shape fuel s2) as (L & HL & PL).
  destruct (run_loop body fuel s2) as [[?|ex|] s3]; simpl in *.
  - destruct (call_hook_part fin OFin s3) as (F & HF & PF).
    destruct (call_hook body fin OFin s3) as [[?|ex] s4]; simpl in *;
      exists A, B, L, F; rewrite HF, HL, HB, HA, <- !app_assoc;
      split_and!; by eauto.
  - exists A, B, L, []. rewrite app_nil_r, HL, HB, HA, <- !app_assoc.
    split_and!; by eauto.
  - exists A, B, L, []. rewrite app_nil_r, HL, HB, HA, <- !app_assoc.
    split_and!; by eauto.
Qed.

(** ** The kernel that [simulate] hands back *)

Lemma pops_api (l : list (@obs V Fn)) : Forall is_api l → pops l = [].
Proof. induction 1 as [|o l Ho _ IH]; [done|]. by destruct o. Qed.

Lemma Simulator_init_kernel data handlers p loglevel (w : W)
    (s0 : State (V:=V) (Fn:=Fn) (W:=W) (Data:=Data)) :
  Simulator__init__ Kernel__init__ data handlers p loglevel w = (Ok tt, s0) →
  wf (kernel_of s0) ∧ __stop_predicates (kernel_of s0) = [] ∧
  __stime (kernel_of s0) = 0 ∧ pops (st_log s0) = [].
Proof.
  unfold Simulator__init__. intros Hs.
  destruct data as [ctor|create|ctor|d].
  - match type of Hs with
    | context [exec ?p ?sim ?log] =>
        pose proof (exec_framed p sim log) as [F1 _ F3 _ _ _ _ _ (new & F9 & F10)];
        pose proof (exec_invariant _ wf_step_invariant p sim log wf_init) as Hk;
        destruct (exec p sim log) as [[d|ex] s1]
    end; simplify_eq. simpl in *. unfold kernel_of. simpl.
    split_and!; try done. rewrite F9. by apply pops_api.
  - destruct (create _ w) as [[d|ex] w1]; simplify_eq.
    split_and!; try done. apply wf_init.
  - destruct (ctor _ w) as [[d|ex] w1]; simplify_eq.
    split_and!; try done. apply wf_init.
  - simplify_eq. split_and!; try done. apply wf_init.
Qed.

(** X18. The simulator that a single-run [simulate] returns has a
    well-formed kernel whose only stop predicate is that of a positive
    [stime_limit] (none for None, zero or less), and a clock that is not
    negative.  When there is no [fin], the run was carried to its end: the
    kernel is [empty], or the limit is positive and the clock is past it. *)
Theorem simulate_returns_kernel fuel data init fin handlers p stime_limit
    loglevel (w w' : W) (sim : Simulator (V:=V) (Fn:=Fn) (Data:=Data)) :
  simulate body has_initialize fuel data init fin handlers (ParamsOne p)
           stime_limit loglevel w = (Finished (OneSim sim), w') →
  let limit := match stime_limit with Some l => l | None => 0 end in
  wf (sim__kernel sim) ∧
  __stop_predicates (sim__kernel sim) = (if 0 <? limit then [limit] else []) ∧
  0 ≤ Simulator_stime sim ∧
  (fin = None →
     empty (sim__kernel sim) = true ∨ (0 < limit ∧ limit < Simulator_stime sim)).
Proof.
  intros Hsim limit.
  destruct (simulate_one_facts _ _ _ _ _ _ _ _ _ _ _ Hsim)
    as (sim' & [= <-] & _ & (s0 & s1 & Hinit & Hrun & ->) & _).
  destruct (Simulator_init_kernel _ _ _ _ _ _ Hinit) as (Hk0 & Hp0 & Ht0 & Hpops).
  fold limit in Hrun.
  set (s := mkState (set_kernel (setup (kernel_of s0) (Some limit)) (st_sim s0))
                    (st_world s0) (st_log s0)) in *.
  assert (Hk : wf (kernel_of s)) by (by apply wf_setup).
  assert (Hp : __stop_predicates (kernel_of s)
               = (if 0 <? limit then [limit] else [])).
  { unfold s, kernel_of, setup. simpl.
    destruct (0 <? limit); simpl; fold (kernel_of s0); by rewrite Hp0. }
  assert (Ht : __stime (kernel_of s) = 0).
  { unfold s, kernel_of, setup. simpl. by destruct (0 <? limit). }
  pose proof (run_invariant _ wf_step_invariant fuel init fin s Hk) as Hk1.
  destruct (run_invariant _ (steady_step_invariant
                               (__stop_predicates (kernel_of s)) 0 0)
              fuel init fin s) as (Hp1 & _).
  { unfold steady_inv. split_and!; [done|lia..]. }
  destruct (run_invariant _ (clock_step_invariant 0) fuel init fin s)
    as (_ & Ht1 & _).
  { unfold clock_inv. split_and!; [done|lia|].
    intros e He. simpl in He. rewrite Hpops in He. by apply elem_of_nil in He. }
  rewrite Hrun in *. simpl in *. fold (kernel_of s1).
  split_and!; [done|congruence|done|].
  intros ->. unfold run in Hrun.
  destruct (call_hook body _ OInitialize s) as [[?|?] t1]; [|done].
  destruct (call_hook body init OInit t1) as [[?|?] t2]; [|done].
  destruct (run_loop body fuel t2) as [[[]|?|] t3] eqn:Hloop; simpl in *;
    simplify_eq.
  destruct (run_loop_finished _ _ _ Hloop) as [He|Hstop]; [by left|right].
  unfold _test_stop in Hstop. rewrite Hp1, Hp in Hstop.
  destruct (0 <? limit) eqn:Hl; [|done]. simpl in Hstop.
  rewrite orb_false_r in Hstop. apply Z.ltb_lt in Hl, Hstop.
  unfold Simulator_stime. fold (kernel_of s1). done.
Qed.

End KernelFacts.

(** * Properties of the dictionaries and of the managers *)
Section DictFacts.
Context {V Fn : Type}.

Lemma getattr_hook {A} own inherited (hook : string → result A) name :
  name ∉ own → dunder name = false →
  getattr own inherited hook name
    = match hook name with Ok v => Ok (Entry v) | Raise e => Raise e end.
Proof.
  intros Hown Hd. unfold getattr.
  by rewrite bool_decide_eq_false_2, Hd by done.
Qed.

Lemma getattr_own {A} own inherited (hook : string → result A) name :
  name ∈ own → getattr own inherited hook name = Ok (Normal name).
Proof. intros Hown. unfold getattr. by rewrite bool_decide_eq_true_2. Qed.

(** C8, amended.  For a key that is absent, the indexed lookup of the
    handler registry and of the parameter bag raises the KeyError that is
    the spec's UnknownName.  The registry's [get] takes the key only and
    raises the same error.  The parameter bag defines no [get]:
    [params.get] is an attribute that normal lookup does not find, so it
    goes to [__getattr__] with the key "get" and raises KeyError when the
    bag has no such key. *)
Theorem C8_absent_key (inherited : string → bool)
    (handlers : HandlersDict (Fn:=Fn))
    (params : _ParamsDict (V:=V)) (item : string) :
  (__handlers handlers !! item = None →
     HandlersDict__getitem__ handlers item = Raise (KeyError item) ∧
     HandlersDict_get handlers item = Raise (KeyError item)) ∧
  (__kwargs params !! item = None →
     _ParamsDict__getitem__ params item = Raise (KeyError item)) ∧
  (__kwargs params !! "get" = None →
     _ParamsDict_getattr inherited params "get" = Raise (KeyError "get")).
Proof.
  unfold _ParamsDict_getattr.
  rewrite getattr_hook;
    [|apply (bool_decide_unpack _); vm_compute; exact I|done].
  unfold HandlersDict__getitem__, HandlersDict_get,
    _ParamsDict__getitem__, _ParamsDict__getattr__, dict_getitem.
  split_and!; intros ->; by split_and?.
Qed.

(** X11. The handler registry holds what it was built from and what was
    set in it: a lookup in [HandlersDict(handlers)] gives the entry of
    [handlers], and raises KeyError when [handlers] is None, empty or
    without the key; after [h[key] = value] the lookup of [key] gives
    [value] and every other lookup is as before.  Index and [get] lookups
    give the same.  The attribute lookup [h.item] gives the same for a name
    that normal lookup does not find, but never reaches the handlers named
    like a method: [h.get] is the method, also when "get" is a key. *)
Theorem HandlersDict_round_trip (inherited : string → bool)
    (handlers : option (gmap string Fn))
    (self : HandlersDict (Fn:=Fn)) (key item : string) (value : Fn) :
  HandlersDict__getitem__ (HandlersDict__init__ handlers) item
    = match handlers with
      | Some h => match h !! item with
                  | Some v => Ok v
                  | None => Raise (KeyError item)
                  end
      | None => Raise (KeyError item)
      end ∧
  HandlersDict__getitem__ (HandlersDict__setitem__ self key value) key
    = Ok value ∧
  (item ≠ key →
     HandlersDict__getitem__ (HandlersDict__setitem__ self key value) item
       = HandlersDict__getitem__ self item) ∧
  HandlersDict_get self item = HandlersDict__getitem__ self item ∧
  (item ∉ HandlersDict_names → dunder item = false →
     HandlersDict_getattr inherited self item
       = match HandlersDict__getitem__ self item with
         | Ok v => Ok (Entry v)
         | Raise e => Raise e
         end) ∧
  (item ∈ HandlersDict_names →
     HandlersDict_getattr inherited self item = Ok (Normal item)) ∧
  HandlersDict_getattr inherited (HandlersDict__setitem__ self "get" value)
    "get" = Ok (Normal "get") ∧
  HandlersDict_get (HandlersDict__setitem__ self "get" value) "get"
    = Ok value.
Proof.
  split_and!.
  - unfold HandlersDict__getitem__, HandlersDict__init__, dict_getitem,
      dict_update.
    destruct handlers as [h|]; simpl; [|by rewrite lookup_empty].
    case_bool_decide as Hh; simpl.
    + subst. by rewrite lookup_empty.
    + by rewrite (right_id_L ∅ (∪)).
  - unfold HandlersDict__getitem__, dict_getitem. simpl.
    by rewrite lookup_insert_eq.
  - intros Hne. unfold HandlersDict__getitem__, dict_getitem. simpl.
    by rewrite lookup_insert_ne.
  - done.
  - intros Hown Hd. unfold HandlersDict_getattr. by rewrite getattr_hook.
  - intros Hown. unfold HandlersDict_getattr. by rewrite getattr_own.
  - unfold HandlersDict_getattr. apply getattr_own.
    apply (bool_decide_unpack _). vm_compute. exact I.
  - unfold HandlersDict_get, dict_getitem. simpl. by rewrite lookup_insert_eq.
Qed.

(** X12. The parameter bag gives back what it was built from: [as_dict]
    of [_ParamsDict(kwargs)] is [kwargs] (empty for None), and the index
    lookup succeeds exactly on the keys of [as_dict], with its values.  The
    attribute lookup [params.item] does the same for a name that normal
    lookup does not find; [params.as_dict] is the method, also when
    "as_dict" is a key, so such a parameter is reached by index only. *)
Theorem ParamsDict_round_trip (inherited : string → bool)
    (kwargs : option (gmap string V))
    (self : _ParamsDict (V:=V)) (item : string) (v : V) :
  _ParamsDict_as_dict (_ParamsDict__init__ kwargs)
    = match kwargs with Some kw => kw | None => ∅ end ∧
  (_ParamsDict__getitem__ self item = Ok v
     ↔ _ParamsDict_as_dict self !! item = Some v) ∧
  (_ParamsDict__getitem__ self item = Raise (KeyError item)
     ↔ _ParamsDict_as_dict self !! item = None) ∧
  (item ∉ _ParamsDict_names → dunder item = false →
     (_ParamsDict_getattr inherited self item = Ok (Entry v)
        ↔ _ParamsDict_as_dict self !! item = Some v) ∧
     (_ParamsDict_getattr inherited self item = Raise (KeyError item)
        ↔ _ParamsDict_as_dict self !! item = None)) ∧
  (item ∈ _ParamsDict_names →
     _ParamsDict_getattr inherited self item = Ok (Normal item)) ∧
  _ParamsDict_getattr inherited (_ParamsDict__init__ (Some {[ "as_dict" := v ]}))
    "as_dict" = Ok (Normal "as_dict") ∧
  _ParamsDict__getitem__ (_ParamsDict__init__ (Some {[ "as_dict" := v ]}))
    "as_dict" = Ok v.
Proof.
  split_and!.
  - unfold _ParamsDict_as_dict, _ParamsDict__init__, dict_update.
    rewrite !(right_id_L ∅ (∪)).
    destruct kwargs as [kw|]; simpl; [|done].
    case_bool_decide; simpl; rewrite ?(right_id_L ∅ (∪)); by subst.
  - unfold _ParamsDict_as_dict, _ParamsDict__getitem__, dict_getitem,
      dict_update. rewrite (right_id_L ∅ (∪)).
    destruct (__kwargs self !! item); split; congruence.
  - unfold _ParamsDict_as_dict, _ParamsDict__getitem__, dict_getitem,
      dict_update. rewrite (right_id_L ∅ (∪)).
    destruct (__kwargs self !! item); split; congruence.
  - intros Hown Hd. unfold _ParamsDict_getattr. rewrite getattr_hook by done.
    unfold _ParamsDict_as_dict, _ParamsDict__getattr__, dict_getitem,
      dict_update. rewrite (right_id_L ∅ (∪)).
    destruct (__kwargs self !! item); split; split; congruence.
  - intros Hown. unfold _ParamsDict_getattr. by rewrite getattr_own.
  - unfold _ParamsDict_getattr. apply getattr_own.
    apply (bool_decide_unpack _). vm_compute. exact I.
  - unfold _ParamsDict__getitem__, _ParamsDict__init__, dict_getitem,
      dict_update.
    rewrite bool_decide_eq_false_2 by apply insert_non_empty.
    simpl. rewrite (right_id_L ∅ (∪)). by rewrite lookup_singleton_eq.
Qed.

End DictFacts.

Module ModelFacts.
Import Models.

(** Two models built with no parent: [0] and [1], on simulator [7]. *)
Definition two_models : store :=
  Model__init__ (Model__init__ ∅ 0 7 None) 1 7 None.

(** No operation of a manager writes a parent link. *)
Lemma manager_add_parent st m w name v st' x :
  manager_add st m w name v = Ok st' → parent st' x = parent st x.
Proof.
  unfold manager_add, parent. intros Ha.
  destruct (st !! m) as [o|] eqn:Hm; [|done].
  destruct (add (container_of w o) name v) as [c|ex]; [|done].
  simplify_eq. destruct (decide (x = m)) as [->|Hne].
  - rewrite lookup_insert_eq, Hm. by destruct w.
  - by rewrite lookup_insert_ne.
Qed.

(** C6, on the code.  [P.children.add("pong", C)] puts [C] under "pong" in
    [P]'s children and leaves [C]'s parent as it was, None: the child is not
    told of its parent.  Removing it again leaves the link alone as well. *)
Theorem C6_child_not_notified :
  ∃ st1 st2,
    manager_add two_models 0 children "pong" (AModel 1) = Ok st1 ∧
    manager_get st1 0 children "pong" = Ok (AModel 1) ∧
    parent st1 1 = None ∧
    manager_remove st1 0 children "pong" = Ok st2 ∧
    manager_get st2 0 children "pong" = Raise (KeyError "pong") ∧
    parent st2 1 = None.
Proof. do 2 eexists. split_and!; vm_compute; reflexivity. Qed.

(** C7, on the code.  [A.connections.add("pong", B)] stores [B] itself
    under "pong", and [get] returns [B] itself: no record with a [module]
    and a [delay] is made, and a model has no [send]. *)
Theorem C7_connection_is_the_peer :
  ∃ st1,
    manager_add two_models 0 connections "pong" (AModel 1) = Ok st1 ∧
    manager_get st1 0 connections "pong" = Ok (AModel 1) ∧
    (__modules <$> st1 !! 0%nat) = Some [("pong", AModel 1)].
Proof. eexists. split_and!; vm_compute; reflexivity. Qed.


(** ** The managers as dictionaries *)

(** The names of a container, in its order. *)
Definition names (c : container) : list string := fst <$> c.

Lemma filter_all_id {A} (P : A → Prop) `{!∀ x, Decision (P x)} (l : list A) :
  (∀ x, x ∈ l → P x) → filter P l = l.
Proof.
  induction l as [|x l IH]; intros Hl; [done|].
  rewrite filter_cons. destruct (decide (P x)) as [_|Hn].
  - f_equal. apply IH. intros y Hy. apply Hl. by right.
  - destruct Hn. apply Hl. by left.
Qed.

Lemma contains_names c n : dict_contains c n = true ↔ n ∈ names c.
Proof.
  induction c as [|[k v] c IH]; simpl.
  - split; [done|]. intros Hn. by apply elem_of_nil in Hn.
  - rewrite elem_of_cons. destruct (String.eqb_spec k n) as [->|Hne].
    + split; [by left|done].
    + rewrite IH. split; [by right|]. intros [?|?]; [congruence|done].
Qed.

Lemma lookup_absent c n : n ∉ names c → dict_lookup c n = Raise (KeyError n).
Proof.
  induction c as [|[k v] c IH]; simpl; [done|].
  rewrite not_elem_of_cons. intros [Hne Hn].
  destruct (String.eqb_spec k n); [congruence|]. by apply IH.
Qed.

Lemma lookup_present c n : n ∈ names c → ∃ v, dict_lookup c n = Ok v.
Proof.
  induction c as [|[k v] c IH]; simpl.
  - intros Hn. by apply elem_of_nil in Hn.
  - rewrite elem_of_cons. intros Hn.
    destruct (String.eqb_spec k n) as [->|Hne]; [by eauto|].
    apply IH. by destruct Hn.
Qed.

Lemma delitem_absent c n : n ∉ names c → dict_delitem c n = Raise (KeyError n).
Proof.
  induction c as [|[k v] c IH]; simpl; [done|].
  rewrite not_elem_of_cons. intros [Hne Hn].
  destruct (String.eqb_spec k n); [congruence|]. by rewrite IH.
Qed.

Lemma delitem_present c n : n ∈ names c → ∃ c', dict_delitem c n = Ok c'.
Proof.
  induction c as [|[k v] c IH]; simpl.
  - intros Hn. by apply elem_of_nil in Hn.
  - rewrite elem_of_cons. intros Hn.
    destruct (String.eqb_spec k n) as [->|Hne]; [by eauto|].
    destruct IH as [c' ->]; [by destruct Hn|]. by eauto.
Qed.

Lemma remove_absent c n : n ∉ names c → remove c n = c.
Proof. intros Hn. unfold remove. by rewrite delitem_absent. Qed.

Lemma remove_cons k v c n :
  remove ((k, v) :: c) n = if String.eqb k n then c else (k, v) :: remove c n.
Proof.
  unfold remove. simpl. destruct (String.eqb k n); [done|].
  by destruct (dict_delitem c n).
Qed.

Lemma names_remove c n :
  NoDup (names c) → names (remove c n) = filter (λ m, m ≠ n) (names c).
Proof.
  induction c as [|[k v] c IH]; [done|].
  rewrite remove_cons. unfold names in *. simpl. intros Hnd.
  apply NoDup_cons in Hnd as [Hk Hnd]. rewrite filter_cons.
  destruct (String.eqb_spec k n) as [->|Hne].
  - destruct (decide (n ≠ n)); [done|].
    symmetry. apply filter_all_id. intros x Hx ->. done.
  - destruct (decide (k ≠ n)); [|done]. simpl. f_equal. by apply IH.
Qed.

Lemma lookup_remove_ne c n m :
  m ≠ n → dict_lookup (remove c n) m = dict_lookup c m.
Proof.
  intros Hne. induction c as [|[k v] c IH]; [done|].
  rewrite remove_cons. simpl.
  destruct (String.eqb_spec k n) as [->|Hkn].
  - destruct (String.eqb_spec n m); [congruence|done].
  - simpl. by rewrite IH.
Qed.

Lemma lookup_setitem_eq c n v : dict_lookup (dict_setitem c n v) n = Ok v.
Proof.
  induction c as [|[k v0] c IH]; simpl.
  - by rewrite String.eqb_refl.
  - destruct (String.eqb_spec k n) as [->|Hne]; simpl.
    + by rewrite String.eqb_refl.
    + by destruct (String.eqb_spec k n).
Qed.

Lemma lookup_setitem_ne c n v m :
  m ≠ n → dict_lookup (dict_setitem c n v) m = dict_lookup c m.
Proof.
  intros Hne. induction c as [|[k v0] c IH]; simpl.
  - by destruct (String.eqb_spec n m); [congruence|].
  - destruct (String.eqb_spec k n) as [->|Hkn]; simpl.
    + by destruct (String.eqb_spec n m); [congruence|].
    + by rewrite IH.
Qed.

Lemma names_setitem c n v :
  names (dict_setitem c n v)
    = if bool_decide (n ∈ names c) then names c else names c ++ [n].
Proof.
  induction c as [|[k v0] c IH]; unfold names in *.
  - case_bool_decide as H1; [|done]. by apply elem_of_nil in H1.
  - cbn [dict_setitem fmap list_fmap fst].
    destruct (String.eqb_spec k n) as [->|Hkn]; cbn [fmap list_fmap fst].
    + clear IH. case_bool_decide as H1; [done|]. destruct H1. by left.
    + rewrite IH. clear IH. case_bool_decide as H1; case_bool_decide as H2; try done.
      * destruct H2. by right.
      * apply elem_of_cons in H2 as [?|?]; [congruence|done].
Qed.

Lemma add_as_remove c n v : add c n v = Ok (dict_setitem (remove c n) n v).
Proof.
  unfold add, remove. destruct (dict_contains c n) eqn:Hc.
  - apply contains_names, delitem_present in Hc as [c' ->]. done.
  - rewrite delitem_absent; [done|]. intros Hn.
    apply contains_names in Hn. congruence.
Qed.

(** X13. [add] never raises.  After [add(name, module)], [get(name)]
    returns [module] and every other name gives what it gave before; the
    names stay distinct, and [name] is now the last of them, wherever it
    was. *)
Theorem add_then_get (c : container) (name : string) (module : mval) :
  ∃ c', add c name module = Ok c' ∧
    get c' name = Ok module ∧
    (∀ m, m ≠ name → get c' m = get c m) ∧
    (NoDup (names c) →
       NoDup (names c') ∧
       names c' = filter (λ m, m ≠ name) (names c) ++ [name]).
Proof.
  rewrite add_as_remove. eexists. split; [done|]. unfold get. split_and!.
  - apply lookup_setitem_eq.
  - intros m Hm. by rewrite lookup_setitem_ne, lookup_remove_ne.
  - intros Hnd. rewrite names_setitem, names_remove by done.
    assert (Hout : name ∉ filter (λ m, m ≠ name) (names c)).
    { intros [Hn _]%list_elem_of_filter. done. }
    rewrite bool_decide_eq_false_2 by done.
    split; [|done]. apply NoDup_app. split_and!.
    + by apply NoDup_filter.
    + intros x Hx ->%list_elem_of_singleton. done.
    + apply NoDup_singleton.
Qed.

(** X14. [remove] never raises: for a name that is not there it changes
    nothing.  On a container with distinct names, after [remove(name)] the
    lookup of [name] raises KeyError, the other names keep their order and
    what they give; and removing a name just added to a container that did
    not have it gives the container back. *)
Theorem remove_then_get (c : container) (name : string) (module : mval) :
  (name ∉ names c → remove c name = c) ∧
  (∀ m, m ≠ name → get (remove c name) m = get c m) ∧
  (NoDup (names c) →
     get (remove c name) name = Raise (KeyError name) ∧
     names (remove c name) = filter (λ m, m ≠ name) (names c) ∧
     NoDup (names (remove c name))) ∧
  (name ∉ names c →
     ∃ c', add c name module = Ok c' ∧ remove c' name = c).
Proof.
  split_and!.
  - apply remove_absent.
  - intros m Hm. by apply lookup_remove_ne.
  - intros Hnd. rewrite names_remove by done.
    split_and!; [|done|by apply NoDup_filter].
    apply lookup_absent. rewrite names_remove by done.
    intros [Hn _]%list_elem_of_filter. done.
  - intros Hn. rewrite add_as_remove, remove_absent by done.
    eexists. split; [done|].
    induction c as [|[k v] c IH]; simpl.
    + unfold remove. simpl. by rewrite String.eqb_refl.
    + unfold names in Hn. simpl in Hn. apply not_elem_of_cons in Hn as [Hk Hn].
      destruct (String.eqb_spec k name) as [?|Hne]; [congruence|].
      rewrite remove_cons. destruct (String.eqb_spec k name); [congruence|].
      f_equal. by apply IH.
Qed.


Lemma names_filter (P : string → Prop) `{!∀ x, Decision (P x)}
    (c : list (string * mval)) :
  names (filter (λ kv, P kv.1) c) = filter P (names c).
Proof.
  induction c as [|[k v] c IH]; [done|]. unfold names in *.
  cbn [fmap list_fmap fst].
  rewrite (filter_cons (λ kv : string * mval, P kv.1) (k, v) c).
  rewrite (filter_cons P k). cbn [fst].
  destruct (decide (P k)); cbn [fmap list_fmap fst]; [f_equal|]; exact IH.
Qed.

Lemma elem_of_names_filter (P : string → Prop) `{!∀ x, Decision (P x)}
    (c : list (string * mval)) n :
  n ∈ names (filter (λ kv, P kv.1) c) ↔ P n ∧ n ∈ names c.
Proof. rewrite names_filter. apply list_elem_of_filter. Qed.

Lemma NoDup_names_filter (P : string → Prop) `{!∀ x, Decision (P x)}
    (c : list (string * mval)) :
  NoDup (names c) → NoDup (names (filter (λ kv, P kv.1) c)).
Proof. rewrite names_filter. apply NoDup_filter. Qed.

Lemma remove_filter (c : list (string * mval)) n :
  NoDup (names c) → remove c n = filter (λ kv, kv.1 ≠ n) c.
Proof.
  induction c as [|[k v] c IH]; [done|].
  rewrite remove_cons. unfold names in *. cbn [fmap list_fmap fst].
  intros [Hk Hnd]%NoDup_cons.
  rewrite (filter_cons (λ kv : string * mval, kv.1 ≠ n) (k, v) c). cbn [fst].
  destruct (String.eqb_spec k n) as [->|Hne].
  - destruct (decide (n ≠ n)); [done|].
    symmetry. apply filter_all_id. intros [k' v'] Hx. simpl. intros ->.
    apply Hk. apply list_elem_of_fmap. by exists (n, v').
  - destruct (decide (k ≠ n)); [|done]. f_equal. by apply IH.
Qed.

Lemma setitem_absent (d : list (string * mval)) n v :
  n ∉ names d → dict_setitem d n v = d ++ [(n, v)].
Proof.
  induction d as [|[k v0] d IH]; [done|]. unfold names in *.
  rewrite fmap_cons. simpl. intros [Hne Hn]%not_elem_of_cons.
  destruct (String.eqb_spec k n); [congruence|]. by rewrite IH.
Qed.

Lemma update_items_disjoint (d kw : list (string * mval)) :
  NoDup (names kw) → (∀ n, n ∈ names kw → n ∉ names d) →
  dict_update_items d kw = d ++ kw.
Proof.
  unfold dict_update_items. revert d.
  induction kw as [|[k v] kw IH]; intros d Hnd Hdis; simpl.
  - by rewrite app_nil_r.
  - unfold names in *. rewrite fmap_cons in *. simpl in *.
    apply NoDup_cons in Hnd as [Hk Hnd].
    rewrite setitem_absent by (apply Hdis; by left).
    rewrite IH, <- app_assoc; [done|done|].
    intros n Hn. unfold names. rewrite fmap_app.
    intros [Hd|Hs%list_elem_of_singleton]%elem_of_app.
    + by apply (Hdis n); [right|].
    + simpl in Hs. congruence.
Qed.

Lemma fold_remove_filter (c : list (string * mval)) kw :
  NoDup (names c) →
  fold_left (λ acc kv, remove acc kv.1) kw c
    = filter (λ kv, kv.1 ∉ names kw) c.
Proof.
  revert c. induction kw as [|[k v] kw IH]; intros c Hnd; simpl.
  - symmetry. apply filter_all_id. intros x _. apply not_elem_of_nil.
  - rewrite IH by (rewrite names_remove by done; by apply NoDup_filter).
    rewrite remove_filter by done. etrans; [apply list_filter_filter|].
    apply list_filter_iff. intros [k' v']. unfold names.
    cbn [fmap list_fmap fst]. rewrite not_elem_of_cons. tauto.
Qed.

Lemma update_closed (c : list (string * mval)) kw :
  NoDup (names c) → NoDup (names kw) →
  update c kw = filter (λ kv, kv.1 ∉ names kw) c ++ kw.
Proof.
  intros Hc Hkw. unfold update. rewrite fold_remove_filter by done.
  apply update_items_disjoint; [done|].
  intros n Hn Hx.
  by destruct (proj1 (elem_of_names_filter (λ m, m ∉ names kw) c n) Hx).
Qed.

Lemma lookup_app (a b : container) n :
  dict_lookup (a ++ b) n
    = match dict_lookup a n with Ok v => Ok v | Raise _ => dict_lookup b n end.
Proof.
  induction a as [|[k v] a IH]; [done|]. simpl.
  by destruct (String.eqb k n).
Qed.

Lemma lookup_filter (P : string → Prop) `{!∀ x, Decision (P x)}
    (c : list (string * mval)) n :
  P n → dict_lookup (filter (λ kv, P kv.1) c) n = dict_lookup c n.
Proof.
  intros HP. induction c as [|[k v] c IH]; [done|].
  rewrite (filter_cons (λ kv : string * mval, P kv.1) (k, v) c).
  cbn [fst dict_lookup]. destruct (String.eqb_spec k n) as [->|Hne].
  - destruct (decide (P n)); [|done]. cbn [dict_lookup].
    by rewrite String.eqb_refl.
  - destruct (decide (P k)); [|exact IH]. cbn [dict_lookup].
    destruct (String.eqb_spec k n); [done|exact IH].
Qed.

(** [for name, module in kwargs.items(): self.add(name, module)] *)
Fixpoint add_each (self : container) (kwargs : container) : result container :=
  match kwargs with
  | [] => Ok self
  | (name, module) :: kwargs' =>
      match add self name module with
      | Ok self' => add_each self' kwargs'
      | Raise e => Raise e
      end
  end.

Lemma add_each_closed (c : list (string * mval)) kw :
  NoDup (names c) → NoDup (names kw) →
  add_each c kw = Ok (filter (λ kv, kv.1 ∉ names kw) c ++ kw).
Proof.
  revert c. induction kw as [|[k v] kw IH]; intros c Hc Hkw; simpl.
  - rewrite app_nil_r. f_equal. symmetry. apply filter_all_id.
    intros x _. apply not_elem_of_nil.
  - unfold names in Hkw. rewrite fmap_cons in Hkw. simpl in Hkw.
    apply NoDup_cons in Hkw as [Hk Hkw]. fold (names kw) in Hk, Hkw.
    rewrite add_as_remove. rewrite IH; [|rewrite names_setitem, names_remove by done|done].
    2:{ rewrite bool_decide_eq_false_2
          by (by intros [Hn _]%list_elem_of_filter).
        apply NoDup_app. split_and!; [by apply NoDup_filter| |apply NoDup_singleton].
        intros x [Hx _]%list_elem_of_filter ->%list_elem_of_singleton. done. }
    f_equal. rewrite remove_filter by done. rewrite setitem_absent.
    2:{ intros Hx.
        by destruct (proj1 (elem_of_names_filter (λ m, m ≠ k) c k) Hx). }
    rewrite filter_app, list_filter_filter, filter_cons, filter_nil. simpl.
    destruct (decide (k ∉ names kw)); [|done].
    rewrite <- app_assoc. simpl. f_equal.
    apply list_filter_iff. intros [k' v']. unfold names.
    cbn [fmap list_fmap fst]. rewrite not_elem_of_cons. tauto.
Qed.

(** X15. For dictionaries (distinct names on both sides), [update(kwargs)]
    leaves the entries whose name [kwargs] does not mention, in their
    order, followed by the entries of [kwargs] in theirs; it is what adding
    the entries of [kwargs] one by one gives; the names stay distinct; and
    a lookup afterwards answers from [kwargs] for its names and from the
    old container for the others. *)
Theorem update_is_add_each (c kwargs : container) :
  NoDup (names c) → NoDup (names kwargs) →
  update c kwargs = filter (λ kv, kv.1 ∉ names kwargs) c ++ kwargs ∧
  add_each c kwargs = Ok (update c kwargs) ∧
  NoDup (names (update c kwargs)) ∧
  (∀ n, get (update c kwargs) n
        = if bool_decide (n ∈ names kwargs) then get kwargs n else get c n).
Proof.
  intros Hc Hkw. rewrite add_each_closed, update_closed by done.
  split_and!; [done|done|..].
  - unfold names at 1. rewrite fmap_app. apply NoDup_app. split_and!.
    + exact (NoDup_names_filter (λ m, m ∉ names kwargs) c Hc).
    + intros x Hx.
      by destruct (proj1 (elem_of_names_filter (λ m, m ∉ names kwargs) c x) Hx).
    + done.
  - intros n. unfold get. rewrite lookup_app. case_bool_decide as Hn.
    + rewrite lookup_absent; [done|]. intros Hx.
      by destruct (proj1 (elem_of_names_filter (λ m, m ∉ names kwargs) c n) Hx).
    + pose proof (lookup_filter (λ m, m ∉ names kwargs) c n Hn) as Hf.
      cbv beta in Hf. rewrite Hf. clear Hf.
      destruct (decide (n ∈ names c)) as [Hin|Hout].
      * by destruct (lookup_present c n Hin) as [v ->].
      * by rewrite !lookup_absent.
Qed.

(** ** [modules()] *)

(** The Model objects of a value, left to right. *)
Fixpoint leaves (val : mval) : list nat :=
  match val with
  | AModel m => [m]
  | ASeq vs =>
      (fix each (vs : list mval) : list nat :=
         match vs with
         | [] => []
         | v :: vs' => leaves v ++ each vs'
         end) vs
  | AnAtom _ => []
  end.

(** No value that is neither a Model nor iterable is met on the way: the
    traversal stops at the first one, so what follows it is not looked at. *)
Fixpoint first_atom (val : mval) : option nat :=
  match val with
  | AModel _ => None
  | ASeq vs =>
      (fix each (vs : list mval) : option nat :=
         match vs with
         | [] => None
         | v :: vs' =>
             match first_atom v with
             | Some t => Some t
             | None => each vs'
             end
         end) vs
  | AnAtom t => Some t
  end.

Fixpoint mval_nested_ind (P : mval → Prop)
    (Hm : ∀ m, P (AModel m))
    (Hs : ∀ vs, Forall P vs → P (ASeq vs))
    (Ha : ∀ t, P (AnAtom t)) (v : mval) : P v :=
  match v with
  | AModel m => Hm m
  | ASeq vs =>
      Hs vs ((fix each (vs : list mval) : Forall P vs :=
                match vs with
                | [] => Forall_nil_2 P
                | v :: vs' =>
                    Forall_cons_2 P v vs' (mval_nested_ind P Hm Hs Ha v)
                      (each vs')
                end) vs)
  | AnAtom t => Ha t
  end.

Lemma flatten_leaves (val : mval) :
  flatten val = match first_atom val with
                | None => Ok (leaves val)
                | Some _ => Raise (TypeError "object is not iterable")
                end.
Proof.
  induction val as [m|vs IH|t] using mval_nested_ind; [done| |done].
  induction IH as [|v vs Hv _ IHvs]; [done|].
  simpl in *. rewrite Hv. destruct (first_atom v); [done|].
  rewrite IHvs. by destruct ((fix each (vs : list mval) : option nat :=
    match vs with
    | [] => None
    | v :: vs' =>
        match first_atom v with Some t => Some t | None => each vs' end
    end) vs).
Qed.

Lemma first_atom_app (vs1 vs2 : list mval) (t : nat) :
  (∀ v, v ∈ vs1 → first_atom v = None) →
  first_atom (ASeq (vs1 ++ AnAtom t :: vs2)) = Some t.
Proof.
  induction vs1 as [|v vs1 IH]; intros Hvs; [done|].
  simpl in *. rewrite Hvs by (by left).
  apply IH. intros v' Hv'. apply Hvs. by right.
Qed.

(** X16. [modules()] returns the Model objects found in the values of the
    container, values in the container's order and each value read left to
    right through any nesting of tuples and lists; it raises exactly when a
    value holds something that is neither a Model nor iterable, and then it
    is a TypeError.  When every value is a Model, that is one reference per
    name, in the order of the names. *)
Theorem modules_are_the_leaves (c : container) :
  modules c = match first_atom (ASeq (map snd c)) with
              | None => Ok (leaves (ASeq (map snd c)))
              | Some _ => Raise (TypeError "object is not iterable")
              end ∧
  (∀ ms, map snd c = map AModel ms → modules c = Ok ms) ∧
  (∀ c1 t c2 name, (∀ v, v ∈ map snd c1 → first_atom v = None) →
     c = c1 ++ (name, AnAtom t) :: c2 →
     modules c = Raise (TypeError "object is not iterable")).
Proof.
  unfold modules. rewrite flatten_leaves. split_and!; [done|..].
  - intros ms ->. clear c. induction ms as [|m ms IH]; [done|].
    simpl in *. destruct ((fix each (vs : list mval) : option nat :=
      match vs with
      | [] => None
      | v :: vs' =>
          match first_atom v with Some t => Some t | None => each vs' end
      end) (map AModel ms)); [done|].
    injection IH as IH. by rewrite IH.
  - intros c1 t c2 name Hc1 ->. rewrite map_app. cbn [map snd].
    by rewrite first_atom_app.
Qed.

(** ** The managers of a model *)

(** X17. A manager works on the dict of its own model and on nothing
    else: after [m.children.add(name, module)] (or the same on
    [m.connections]) the name gives [module] there, the other manager of
    [m] and both managers of every other model answer as before, no parent
    link has changed and no object has appeared or gone. *)
Theorem manager_add_is_local (st : store) (m : nat) (w : which)
    (name : string) (module : mval) :
  is_Some (st !! m) →
  ∃ st', manager_add st m w name module = Ok st' ∧
    manager_get st' m w name = Ok module ∧
    (∀ w' n, w' ≠ w → manager_get st' m w' n = manager_get st m w' n) ∧
    (∀ r w' n, r ≠ m → manager_get st' r w' n = manager_get st r w' n) ∧
    (∀ r, parent st' r = parent st r) ∧
    dom st' = dom st.
Proof.
  intros [o Ho]. unfold manager_add. rewrite Ho.
  rewrite add_as_remove.
  eexists. split; [done|]. unfold manager_get, parent. split_and!.
  - rewrite lookup_insert_eq. unfold get.
    destruct w; simpl; apply lookup_setitem_eq.
  - intros w' n Hw. rewrite lookup_insert_eq, Ho. by destruct w, w'.
  - intros r w' n Hr. by rewrite lookup_insert_ne.
  - intros r. destruct (decide (r = m)) as [->|Hr].
    + rewrite lookup_insert_eq, Ho. by destruct w.
    + by rewrite lookup_insert_ne.
  - apply dom_insert_lookup_L. by rewrite Ho.
Qed.


(** ** The managers on small containers *)

(** [{a: 1, b: 2}.update({a: 3, c: (4, 5)})]: b stays, then a and c. *)
Lemma update_is_add_each_witness :
  NoDup (names [("a", AModel 1); ("b", AModel 2)]) ∧
  NoDup (names [("a", AModel 3); ("c", ASeq [AModel 4; AModel 5])]) ∧
  update [("a", AModel 1); ("b", AModel 2)]
         [("a", AModel 3); ("c", ASeq [AModel 4; AModel 5])]
    = [("b", AModel 2); ("a", AModel 3); ("c", ASeq [AModel 4; AModel 5])] ∧
  add_each [("a", AModel 1); ("b", AModel 2)]
           [("a", AModel 3); ("c", ASeq [AModel 4; AModel 5])]
    = Ok (update [("a", AModel 1); ("b", AModel 2)]
                 [("a", AModel 3); ("c", ASeq [AModel 4; AModel 5])]).
Proof.
  assert (H1 : NoDup (names [("a", AModel 1); ("b", AModel 2)])).
  { unfold names. cbn [fmap list_fmap fst].
    apply (bool_decide_unpack _). vm_compute. exact I. }
  assert (H2 : NoDup (names [("a", AModel 3);
                             ("c", ASeq [AModel 4; AModel 5])])).
  { unfold names. cbn [fmap list_fmap fst].
    apply (bool_decide_unpack _). vm_compute. exact I. }
  destruct (update_is_add_each _ _ H1 H2) as (_ & Hadd & _).
  split; [exact H1|]. split; [exact H2|].
  split; [vm_compute; reflexivity|exact Hadd].
Defined.

(** Model 0 takes model 1 as the child "pong": its connections, model 1
    and the parent links are as before. *)
Lemma manager_add_is_local_witness :
  is_Some (two_models !! 0%nat) ∧
  ∃ st',
    manager_add two_models 0 children "pong" (AModel 1) = Ok st' ∧
    manager_get st' 0 children "pong" = Ok (AModel 1) ∧
    manager_get st' 0 connections "pong" = Raise (KeyError "pong") ∧
    parent st' 1 = None ∧
    dom st' = dom two_models.
Proof.
  assert (H0 : is_Some (two_models !! 0%nat))
    by (eexists; vm_compute; reflexivity).
  destruct (manager_add_is_local two_models 0 children "pong" (AModel 1) H0)
    as (st' & Hadd & Hget & Hother & _ & Hparent & Hdom).
  split; [exact H0|]. exists st'. split; [exact Hadd|]. split; [exact Hget|].
  split; [|split; [|exact Hdom]].
  - rewrite (Hother connections "pong") by discriminate.
    vm_compute. reflexivity.
  - rewrite Hparent. vm_compute. reflexivity.
Defined.

End ModelFacts.

(** * The theorems at work on the small simulation *)
Section Runs.
Import Scenario.

(** Scenario: [init] schedules b at 7, then a and b at 5; the three events
    are popped as a (id 1), b (id 2), b (id 0). *)
Lemma C1_dispatch_order_witness :
  wf (kernel_of (fresh None)) ∧ st_log (fresh None) = [] ∧
  pops (st_log (run body has_initialize 9 (Some h_pair) None (fresh None)).2)
    = [event 1 5 (Some h_a); event 2 5 (Some h_b); event 0 7 (Some h_b)] ∧
  (∀ i j e1 e2, (i < j)%nat →
     pops (st_log (run body has_initialize 9 (Some h_pair) None (fresh None)).2)
       !! i = Some e1 →
     pops (st_log (run body has_initialize 9 (Some h_pair) None (fresh None)).2)
       !! j = Some e2 →
     ev_stime e1 ≤ ev_stime e2 ∧
     (ev_stime e1 = ev_stime e2 → (ev_id e1 < ev_id e2)%nat)).
Proof.
  split; [exact wf_init|]. split; [reflexivity|].
  split; [vm_compute; reflexivity|].
  exact (proj1 (C1_dispatch_order body has_initialize 9 (Some h_pair) None
                  (fresh None) wf_init eq_refl)).
Defined.



(** A delay of -1 is refused and a delay of 2 gives id 0, on a new kernel. *)
Lemma C4_schedule_witness :
  (-1 < 0 ∧
   add_event (kernel_of (fresh None)) (-1) (Some h_a) [] None
     = (Raise (ValueError "negative delay disallowed"), kernel_of (fresh None))) ∧
  (0 ≤ 2 ∧
   ∃ k', add_event (kernel_of (fresh None)) 2 (Some h_a) [] None = (Ok 0%nat, k') ∧
         __evids k' = {[ 0%nat := event 0 2 (Some h_a) ]} ∧
         __queue_size k' = 1 ∧ wf k').
Proof.
  destruct (C4_schedule (st_sim (fresh None)) (-1) (Some h_a) [] None)
    as [Hneg _].
  destruct (C4_schedule (st_sim (fresh None)) 2 (Some h_a) [] None)
    as [_ Hpos].
  split.
  - split; [lia|]. apply Hneg. lia.
  - split; [lia|].
    destruct (Hpos ltac:(lia)) as (k' & Hadd & _ & _ & _ & Hev & Hsz & _ & _ & _ & Hwf).
    exists k'. split; [exact Hadd|]. split; [exact Hev|]. split; [exact Hsz|].
    apply Hwf. exact wf_init.
Defined.


(** A limit of 10: an event at 10 is dispatched, an event at 15 is not. *)
Lemma C5_setup_time_limit_witness :
  0 < 10 ∧
  __stop_predicates (setup (Kernel__init__ (V:=nat) (Fn:=callable)) (Some 10))
    = [10] ∧
  setup (Kernel__init__ (V:=nat) (Fn:=callable)) (Some 0) = Kernel__init__ ∧
  (∃ rest,
     st_log (run_loop body 1
               (call_hook body (Some h_on_time) OInit (fresh (Some 10))).2).2
     = [OInit; OSchedule (event 0 10 (Some h_a))]
       ++ [OPop (event 0 10 (Some h_a)); OCall (event 0 10 (Some h_a))]
       ++ rest) ∧
  st_log (run_loop body 1
            (call_hook body (Some h_late) OInit (fresh (Some 10))).2).2
    = [OInit; OSchedule (event 0 15 (Some h_a)); OPop (event 0 15 (Some h_a))].
Proof.
  destruct (C5_setup_time_limit (W:=nat) (Data:=nat) body
              (Kernel__init__ (V:=nat) (Fn:=callable)) 10)
    as (Hpos & _ & _ & Hloop).
  destruct (C5_setup_time_limit (W:=nat) (Data:=nat) body
              (Kernel__init__ (V:=nat) (Fn:=callable)) 0)
    as (_ & Hzero & _).
  destruct (Hpos ltac:(lia)) as (Hpred & _).
  split; [lia|]. split; [exact Hpred|]. split; [apply Hzero; lia|].
  set (s_on := (call_hook body (Some h_on_time) OInit (fresh (Some 10))).2).
  set (s_late := (call_hook body (Some h_late) OInit (fresh (Some 10))).2).
  assert (Hwf : ∀ fn, wf (kernel_of (call_hook body (Some fn) OInit
                                       (fresh (Some 10))).2)).
  { intros fn.
    apply (call_hook_invariant body _ wf_step_invariant (Some fn) OInit
             (fresh (Some 10)) (or_intror (or_introl eq_refl))).
    apply wf_setup. exact wf_init. }
  split.
  - assert (Hp : __stop_predicates (kernel_of s_on) = [10])
      by (vm_compute; reflexivity).
    assert (He : empty (kernel_of s_on) = false) by (vm_compute; reflexivity).
    assert (Hn : _next_event (kernel_of s_on)
                 = (Ok (event 0 10 (Some h_a)), (_next_event (kernel_of s_on)).2))
      by (vm_compute; reflexivity).
    destruct (Hloop 0%nat s_on _ _ ltac:(lia) (Hwf h_on_time) Hp He Hn)
      as [Hle _].
    destruct (Hle ltac:(simpl; lia)) as [_ Hcall].
    exact (Hcall h_a eq_refl).
  - assert (Hp : __stop_predicates (kernel_of s_late) = [10])
      by (vm_compute; reflexivity).
    assert (He : empty (kernel_of s_late) = false) by (vm_compute; reflexivity).
    assert (Hn : _next_event (kernel_of s_late)
                 = (Ok (event 0 15 (Some h_a)), (_next_event (kernel_of s_late)).2))
      by (vm_compute; reflexivity).
    destruct (Hloop 0%nat s_late _ _ ltac:(lia) (Hwf h_late) Hp He Hn)
      as [_ Hgt].
    destruct (Hgt ltac:(simpl; lia)) as [_ ->]. vm_compute. reflexivity.
Defined.

(** A registry and a bag that hold one entry each, asked for another. *)
Lemma C8_absent_key_witness :
  __handlers (HandlersDict__init__ (Some {[ "a" := h_a ]})) !! "b" = None ∧
  HandlersDict__getitem__ (HandlersDict__init__ (Some {[ "a" := h_a ]})) "b"
    = Raise (KeyError "b") ∧
  HandlersDict_get (HandlersDict__init__ (Some {[ "a" := h_a ]})) "b"
    = Raise (KeyError "b") ∧
  _ParamsDict__getitem__ (_ParamsDict__init__ (Some {[ "x" := 1%nat ]})) "b"
    = Raise (KeyError "b") ∧
  _ParamsDict_getattr inherited
    (_ParamsDict__init__ (Some {[ "x" := 1%nat ]})) "get"
    = Raise (KeyError "get").
Proof.
  destruct (C8_absent_key inherited
              (HandlersDict__init__ (Some {[ "a" := h_a ]}))
              (_ParamsDict__init__ (Some {[ "x" := 1%nat ]})) "b")
    as (Hh & Hp & Hg).
  assert (H1 : __handlers (HandlersDict__init__ (Some {[ "a" := h_a ]})) !! "b"
               = None) by (vm_compute; reflexivity).
  assert (H2 : __kwargs (_ParamsDict__init__ (Some {[ "x" := 1%nat ]})) !! "b"
               = None) by (vm_compute; reflexivity).
  assert (H3 : __kwargs (_ParamsDict__init__ (Some {[ "x" := 1%nat ]})) !! "get"
               = None) by (vm_compute; reflexivity).
  destruct (Hh H1) as (G1 & G3).
  split; [exact H1|]. split; [exact G1|]. split; [exact G3|].
  split; [exact (Hp H2)|]. exact (Hg H3).
Defined.

(** C8 as stated fails: the registry's [get] raises for an absent key, it
    returns no default; and [params.get] raises as well. *)
Lemma C8_get_raises :
  HandlersDict_get (HandlersDict__init__ (Some {[ "a" := h_a ]})) "b"
    = Raise (KeyError "b") ∧
  (¬ ∃ v, HandlersDict_get (HandlersDict__init__ (Some {[ "a" := h_a ]})) "b"
          = Ok v) ∧
  _ParamsDict_getattr inherited
    (_ParamsDict__init__ (Some {[ "x" := 1%nat ]})) "get"
    = Raise (KeyError "get").
Proof.
  split; [vm_compute; reflexivity|]. split; [|vm_compute; reflexivity].
  intros [v Hv]. vm_compute in Hv. discriminate Hv.
Qed.

(** A sweep over two dicts with an object as [data]: [init] ticks. *)
Lemma C9_simulate_witness :
  ∃ sims w',
    simulate body has_initialize 5 (NotAClass 0%nat) (Some h_tick) None None
             (ParamsList [{[ "x" := 1%nat ]}; {[ "x" := 2%nat ]}]) None None
             0%nat = (Finished (SimList sims), w') ∧
    length sims = 2%nat ∧
    (sim__params <$> sims)
      = [_ParamsDict__init__ (Some {[ "x" := 1%nat ]});
         _ParamsDict__init__ (Some {[ "x" := 2%nat ]})] ∧
    (∀ sim, sim ∈ sims → sim__data sim = Some 0%nat).
Proof.
  set (call := simulate body has_initialize 5 (NotAClass 0%nat) (Some h_tick)
                 None None
                 (ParamsList [{[ "x" := 1%nat ]}; {[ "x" := 2%nat ]}])
                 None None 0%nat).
  set (r := match call.1 with Finished x => x | _ => SimList [] end).
  assert (Hcall : call = (Finished r, call.2)) by (vm_compute; reflexivity).
  destruct (C9_simulate body has_initialize 5 (NotAClass 0%nat) (Some h_tick)
              None None None None 0%nat) as (_ & Hlist & _).
  destruct (Hlist _ _ _ Hcall) as (sims & Hr & Hlen & _ & Hpar & Hdata).
  exists sims, call.2. rewrite Hcall, Hr.
  split; [reflexivity|]. split; [exact Hlen|]. split; [|exact (Hdata _ eq_refl)].
  destruct sims as [|s1 [|s2 [|s3 sims]]]; try discriminate Hlen.
  simpl. f_equal; [exact (proj1 (Hpar 0%nat _ _ eq_refl eq_refl))|].
  f_equal. exact (proj1 (Hpar 1%nat _ _ eq_refl eq_refl)).
Defined.

(** C9 as stated fails when [data] is an object: the two runs of a sweep
    over the same dict twice share the model, the second run sees what the
    first did to it, and its result is not that of a run on its own. *)
Lemma C9_runs_share_the_object :
  ∃ sim1 sim2 w1 w2,
    simulate body has_initialize 5 (NotAClass 0%nat) (Some h_tick) None None
             (ParamsList [∅; ∅]) None None 0%nat
      = (Finished (SimList [sim1; sim2]), w2) ∧
    simulate body has_initialize 5 (NotAClass 0%nat) (Some h_tick) None None
             (ParamsOne (Some ∅)) None None 0%nat
      = (Finished (OneSim sim1), w1) ∧
    sim__data sim1 = Some 0%nat ∧ sim__data sim2 = Some 0%nat ∧
    Simulator_stime sim1 = 1 ∧ Simulator_stime sim2 = 2 ∧ sim2 ≠ sim1.
Proof.
  do 4 eexists. split; [vm_compute; reflexivity|].
  split; [vm_compute; reflexivity|].
  split; [reflexivity|]. split; [reflexivity|].
  split; [reflexivity|]. split; [reflexivity|].
  intros Heq. apply (f_equal Simulator_stime) in Heq. vm_compute in Heq.
  discriminate Heq.
Qed.

(** An event without a handler, due at 1: popped, nothing called, and the
    run goes on to empty the queue. *)
Lemma C10_event_without_handler_witness :
  (0 ≤ 1 ∧
   ∃ k', add_event (kernel_of (fresh None)) 1 None [] None = (Ok 0%nat, k') ∧
         __evids k' !! 0%nat = Some (event 0 1 None)) ∧
  stime (_next_event
      (kernel_of (call_hook body (Some h_tick) OInit (fresh None)).2)).2 = 1 ∧
  num_events (kernel_of
      (run_loop body 2 (call_hook body (Some h_tick) OInit (fresh None)).2).2)
    = 0%nat ∧
  st_log (run_loop body 2 (call_hook body (Some h_tick) OInit (fresh None)).2).2
    = [OInit; OSchedule (event 0 1 None); OPop (event 0 1 None)].
Proof.
  destruct (C10_event_without_handler (W:=nat) (Data:=nat) body)
    as (Hadd & Hturn & Hcount).
  set (s := (call_hook body (Some h_tick) OInit (fresh None)).2).
  split.
  - split; [lia|]. exact (Hadd (kernel_of (fresh None)) 1 [] None ltac:(lia)).
  - destruct (Hturn 1%nat s (event 0 1 None) (_next_event (kernel_of s)).2
                ltac:(vm_compute; reflexivity) ltac:(vm_compute; reflexivity)
                eq_refl) as (Hst & Hnum & Hloop).
    split; [exact Hst|]. rewrite Hloop. split; vm_compute; reflexivity.
Defined.

End Runs.

(** ** Further runs *)

Section MoreRuns.
Import Scenario.

(** The state [init = h] leaves behind on a new simulator. *)
Definition after_init (h : callable) (stime_limit : option Z) : state_t :=
  (call_hook body (Some h) OInit (fresh stime_limit)).2.

Lemma wf_after_init h limit : wf (kernel_of (after_init h limit)).
Proof.
  apply (call_hook_invariant body _ wf_step_invariant (Some h) OInit
           (fresh limit) (or_intror (or_introl eq_refl))).
  apply wf_setup. exact wf_init.
Qed.

(** Handlers of which one raises: [h_a] raises, [h_late] schedules [h_a]
    at 15, the others count one. *)
Definition faulty_body (fn : callable) (sim : sim_t) (args : list nat)
    (kwargs : list (string * nat)) (w : nat)
  : prog (V:=nat) (Fn:=callable) (W:=nat) unit :=
  match fn with
  | h_a => Throw (UserException 1) w
  | h_late => Schedule 15 (Some h_a) [] None (λ _, Return tt w)
  | _ => Return tt (S w)
  end.

(** Handlers that schedule nothing: [h_a] cancels event 1, the others
    count one. *)
Definition still_body (fn : callable) (sim : sim_t) (args : list nat)
    (kwargs : list (string * nat)) (w : nat)
  : prog (V:=nat) (Fn:=callable) (W:=nat) unit :=
  match fn with
  | h_a => Cancel 1 (λ _, Return tt (S w))
  | _ => Return tt (S w)
  end.

Lemma still_body_quiet fn sim args kwargs w :
  quiet (still_body fn sim args kwargs w).
Proof. destruct fn; repeat constructor. Qed.

(** A simulator whose queue holds [h_a] due at 1 and [h_b] due at 2. *)
Definition two_queued : state_t :=
  mkState
    (set_kernel
       (add_event (add_event (kernel_of (fresh None)) 1 (Some h_a) [] None).2
                  2 (Some h_b) [] None).2
       (st_sim (fresh None)))
    0%nat [].

Lemma wf_two_queued : wf (kernel_of two_queued).
Proof. apply wf_add_event, wf_add_event. exact wf_init. Qed.

(** After [init = h_pair] and one turn of the loop two events wait, and the
    accounts of the queue agree. *)
Lemma run_keeps_queue_accounts_witness :
  wf (kernel_of (fresh None)) ∧
  __queue_size
    (kernel_of (run body has_initialize 1 (Some h_pair) None (fresh None)).2)
    = 2 ∧
  let k :=
    kernel_of (run body has_initialize 1 (Some h_pair) None (fresh None)).2 in
  __queue_size k = Z.of_nat (size (__evids k)) ∧
  __queue_size k
    = Z.of_nat (length (filter (λ e, ev_id e ∉ removed_flags k) (__queue k))) ∧
  (∀ i e, __evids k !! i = Some e ↔
          e ∈ __queue k ∧ ev_id e = i ∧ ev_id e ∉ removed_flags k) ∧
  (empty k = true ↔ __evids k = ∅) ∧
  NoDup (ev_id <$> __queue k).
Proof.
  split; [exact wf_init|]. split; [vm_compute; reflexivity|].
  exact (run_keeps_queue_accounts body has_initialize 1 (Some h_pair) None
           (fresh None) wf_init).
Defined.

(** The run of [h_pair] ends at time 7, and every pop lies between 0 and 7. *)
Lemma run_clock_monotone_witness :
  wf (kernel_of (fresh None)) ∧ st_log (fresh None) = [] ∧
  stime (kernel_of
           (run body has_initialize 9 (Some h_pair) None (fresh None)).2) = 7 ∧
  (∀ e, e ∈ pops (st_log
                    (run body has_initialize 9 (Some h_pair) None
                         (fresh None)).2) →
        stime (kernel_of (fresh None)) ≤ ev_stime e ∧
        ev_stime e ≤ stime (kernel_of
           (run body has_initialize 9 (Some h_pair) None (fresh None)).2)).
Proof.
  split; [exact wf_init|]. split; [reflexivity|].
  split; [vm_compute; reflexivity|].
  exact (proj1 (proj2 (run_clock_monotone body has_initialize 9 (Some h_pair)
                         None (fresh None) wf_init eq_refl))).
Defined.

(** After [h_two_cancel] the queue holds a cancelled [h_a] and a live
    [h_b]: the next event is [h_b], and the cancelled one is dropped. *)
Lemma next_event_least_live_witness :
  wf (kernel_of (after_init h_two_cancel None)) ∧
  (_next_event (kernel_of (after_init h_two_cancel None))).1
    = Ok (event 1 5 (Some h_b)) ∧
  live (kernel_of (after_init h_two_cancel None)) (event 1 5 (Some h_b)) ∧
  __evids (_next_event (kernel_of (after_init h_two_cancel None))).2
    = delete 1%nat (__evids (kernel_of (after_init h_two_cancel None))).
Proof.
  set (k := kernel_of (after_init h_two_cancel None)).
  assert (Hn : _next_event k = (Ok (event 1 5 (Some h_b)), (_next_event k).2))
    by (vm_compute; reflexivity).
  pose proof (next_event_least_live k (wf_after_init h_two_cancel None)) as Hl.
  rewrite Hn in Hl. destruct Hl as (_ & _ & Hlive & _ & _ & _ & _ & Hev & _).
  split; [exact (wf_after_init h_two_cancel None)|].
  split; [rewrite Hn; reflexivity|]. split; [exact Hlive|exact Hev].
Defined.

(** [init] schedules a handler that raises: the run ends with what the
    handler raised. *)
Lemma run_errors_are_raised_by_calls_witness :
  wf (kernel_of (fresh None)) ∧
  (run faulty_body has_initialize 3 (Some h_late) None (fresh None)).1
    = Raised (UserException 1) ∧
  raised_by_user_code faulty_body (UserException 1).
Proof.
  assert (Hrun : (run faulty_body has_initialize 3 (Some h_late) None
                      (fresh None)).1 = Raised (UserException 1))
    by (vm_compute; reflexivity).
  split; [exact wf_init|]. split; [exact Hrun|].
  exact (run_errors_are_raised_by_calls faulty_body has_initialize 3
           (Some h_late) None (fresh None) wf_init (UserException 1) Hrun).
Defined.

(** With no time limit the loop of [h_pair] ends on an empty kernel. *)
Lemma loop_ends_empty_or_stopped_witness :
  run_loop body 9 (after_init h_pair None)
    = (Finished tt, (run_loop body 9 (after_init h_pair None)).2) ∧
  __stop_predicates (kernel_of (after_init h_pair None)) = [] ∧
  empty (kernel_of (run_loop body 9 (after_init h_pair None)).2) = true ∧
  __evids (kernel_of (run_loop body 9 (after_init h_pair None)).2) = ∅.
Proof.
  assert (Hrun : run_loop body 9 (after_init h_pair None)
                 = (Finished tt, (run_loop body 9 (after_init h_pair None)).2))
    by (vm_compute; reflexivity).
  assert (Hp : __stop_predicates (kernel_of (after_init h_pair None)) = [])
    by (vm_compute; reflexivity).
  destruct (loop_ends_empty_or_stopped body 9 _ _ Hrun) as [_ Hno].
  destruct (Hno Hp) as [Hempty Hwf].
  destruct (Hwf (wf_after_init h_pair None)) as [Hev _].
  split; [exact Hrun|]. split; [exact Hp|]. split; [exact Hempty|exact Hev].
Defined.

(** On a new kernel: schedule [h_a] three units ahead, cancel it. *)
Lemma schedule_then_cancel_witness :
  wf (kernel_of (fresh None)) ∧ 0 ≤ 3 ∧
  ∃ k1 k2,
    add_event (kernel_of (fresh None)) 3 (Some h_a) [] None = (Ok 0%nat, k1) ∧
    remove_event k1 0 = (Ok (Some (event 0 3 (Some h_a))), k2) ∧
    __evids k2 = ∅ ∧ __queue_size k2 = 0 ∧
    removed k2 (event 0 3 (Some h_a)) = true ∧
    remove_event k2 0 = (Ok None, k2).
Proof.
  split; [exact wf_init|]. split; [lia|].
  destruct (schedule_then_cancel (kernel_of (fresh None)) 3 (Some h_a) [] None
              wf_init ltac:(lia))
    as (k1 & k2 & Ha & Hr & Hev & Hsz & _ & _ & _ & _ & Hrem & _ & Hagain & _).
  exists k1, k2. split; [exact Ha|]. split; [exact Hr|].
  split; [exact Hev|]. split; [exact Hsz|]. split; [exact Hrem|exact Hagain].
Defined.

(** Two events wait and the handlers schedule nothing: two turns are
    enough ([h_a] cancels [h_b], so one turn pops both). *)
Lemma loop_ends_when_nothing_is_scheduled_witness :
  (∀ fn sim args kwargs w, quiet (still_body fn sim args kwargs w)) ∧
  wf (kernel_of two_queued) ∧
  __queue_size (kernel_of two_queued) ≤ Z.of_nat 2 ∧
  (run_loop still_body 2 two_queued).1 ≠ OutOfFuel.
Proof.
  split; [exact still_body_quiet|]. split; [exact wf_two_queued|].
  assert (Hsz : __queue_size (kernel_of two_queued) ≤ Z.of_nat 2)
    by (vm_compute; discriminate).
  split; [exact Hsz|].
  exact (loop_ends_when_nothing_is_scheduled still_body 2 two_queued
           still_body_quiet wf_two_queued Hsz).
Defined.

(** [simulate] with a limit of 10 and an [init] that schedules at 15: the
    returned simulator stands at 15, past the limit. *)
Lemma simulate_returns_kernel_witness :
  ∃ sim w',
    simulate body has_initialize 5 (NotAClass 0%nat) (Some h_late) None None
             (ParamsOne None) (Some 10) None 0%nat
      = (Finished (OneSim sim), w') ∧
    wf (sim__kernel sim) ∧
    __stop_predicates (sim__kernel sim) = [10] ∧
    Simulator_stime sim = 15 ∧
    (empty (sim__kernel sim) = true ∨ (0 < 10 ∧ 10 < Simulator_stime sim)).
Proof.
  set (call := simulate body has_initialize 5 (NotAClass 0%nat) (Some h_late)
                 None None (ParamsOne None) (Some 10) None 0%nat).
  set (r := match call.1 with
            | Finished (OneSim x) => x
            | _ => st_sim (fresh None)
            end).
  assert (Hcall : call = (Finished (OneSim r), call.2))
    by (vm_compute; reflexivity).
  destruct (simulate_returns_kernel body has_initialize 5 (NotAClass 0%nat)
              (Some h_late) None None None (Some 10) None 0%nat call.2 r Hcall)
    as (Hwf & Hp & _ & Hend).
  exists r, call.2. split; [exact Hcall|]. split; [exact Hwf|].
  split; [exact Hp|]. split; [vm_compute; reflexivity|]. exact (Hend eq_refl).
Defined.

End MoreRuns.
